(** * The persona-scoped memory store of mo11y: a shallow embedding

    This development embeds the read and write operations of
    [enhanced_memory.py] (class [EnhancedMemory]) and the merge step of
    [mo11y_agent.py] ([retrieve_memories]) and checks the properties the
    specification states about them.

    Modelling conventions.
    - A table is the list of its rows in rowid order; a statement is a pure
      function on the [store].  Every operation of the source opens its own
      connection and commits before it returns, so the calls run one after
      the other on one store.  The one place where two connections of the
      program meet is [consolidate_memories], which calls
      [remember_semantic] while its own transaction is open: there the
      write lock of the database is part of the model.
    - [REAL] columns hold rationals ([Q]): the code only stores and compares
      them.  A Python float literal is read as the rational it is written as.
    - [TEXT] is an ASCII byte string; text comparison is SQLite's [BINARY]
      collation (byte-wise), [LIKE] is SQLite's default one (percent and
      underscore wildcards, letters compared without case).
    - [CURRENT_TIMESTAMP] and the cut-off dates the Python code derives from
      [datetime.now()] are inputs of the operations.
    - [json.dumps] and [json.loads] of Python's standard library are
      parameters of the operations that call them. *)

From Stdlib Require Import List String Ascii ZArith QArith Bool Lia.
From Stdlib Require Import Sorted Permutation DecimalString.
From Stdlib Require Import Qabs Qminmax Lqa.
From Stdlib Require OrderedTypeEx.
Import ListNotations.

Local Open Scope string_scope.
Local Open Scope list_scope.

(** ** Text primitives of Python and SQLite *)

Module Text.

(** ASCII lower-casing, as SQLite's [LIKE] and [str.lower] do on ASCII. *)
Definition lower_ascii (c : ascii) : ascii :=
let n := N_of_ascii c in
if ((65 <=? n) && (n <=? 90))%N then ascii_of_N (n + 32) else c.

Fixpoint py_lower (s : string) : string :=
match s with
| EmptyString => EmptyString
| String c s' => String (lower_ascii c) (py_lower s')
end.

(** SQLite's [value LIKE pattern]: [%] matches any run of characters, [_]
  exactly one, every other character matches itself without regard to
  ASCII case. *)
Fixpoint like (pattern value : string) {struct pattern} : bool :=
match pattern with
| EmptyString =>
    match value with EmptyString => true | String _ _ => false end
| String c p' =>
    if Ascii.eqb c "%" then
      (fix skip (v : string) : bool :=
         like p' v ||
         match v with
         | EmptyString => false
         | String _ v' => skip v'
         end) value
    else
      match value with
      | EmptyString => false
      | String d v' =>
          (Ascii.eqb c "_" || Ascii.eqb (lower_ascii c) (lower_ascii d))
          && like p' v'
      end
end.

(** A [LIKE] on a nullable column: [NULL LIKE p] is [NULL], which a [WHERE]
  clause (and an [OR] of such tests on the same column) treats as false. *)
Definition like_null (pattern : string) (value : option string) : bool :=
match value with
| None => false
| Some v => like pattern v
end.

(** [needle in haystack] of Python. *)
Fixpoint contains (needle haystack : string) : bool :=
prefix needle haystack ||
match haystack with
| EmptyString => false
| String _ h' => contains needle h'
end.

(** [s.split(sep)] of Python for a non-empty separator: the pieces between
  the occurrences of [sep] found scanning from the left.  [skip] counts the
  characters of a separator still to be passed over, [cur] is the piece
  being read. *)
Fixpoint split_aux (sep : string) (skip : nat) (cur : string) (s : string)
: list string :=
match s with
| EmptyString => [cur]
| String c s' =>
    match skip with
    | S k => split_aux sep k cur s'
    | O =>
        if prefix sep s
        then cur :: split_aux sep (String.length sep - 1) EmptyString s'
        else split_aux sep 0 (cur ++ String c EmptyString) s'
    end
end.

Definition py_split (sep s : string) : list string := split_aux sep 0 "" s.

(** The white space of [str.split()] and [str.strip()] within ASCII. *)
Definition is_space (c : ascii) : bool :=
let n := N_of_ascii c in
((9 <=? n) && (n <=? 13) || (28 <=? n) && (n <=? 32))%N.

Fixpoint lstrip (s : string) : string :=
match s with
| EmptyString => EmptyString
| String c s' => if is_space c then lstrip s' else s
end.

Fixpoint rstrip (s : string) : string :=
match s with
| EmptyString => EmptyString
| String c s' =>
    match rstrip s' with
    | EmptyString => if is_space c then EmptyString else String c EmptyString
    | r => String c r
    end
end.

Definition py_strip (s : string) : string := rstrip (lstrip s).

(** [s.split()] of Python: the maximal runs of non-space characters. *)
Fixpoint words_aux (cur : string) (s : string) : list string :=
match s with
| EmptyString =>
    match cur with EmptyString => [] | _ => [cur] end
| String c s' =>
    if is_space c
    then match cur with
         | EmptyString => words_aux EmptyString s'
         | _ => cur :: words_aux EmptyString s'
         end
    else words_aux (cur ++ String c EmptyString) s'
end.

Definition py_words (s : string) : list string := words_aux "" s.

(** [str(n)] of Python on an integer. *)
Definition py_str_int (n : Z) : string := NilZero.string_of_int (Z.to_int n).

(** [set(l)] of Python, as the list of the distinct elements. *)
Definition py_set (l : list string) : list string := nodup string_dec l.

(** Truth value of a Python string / optional string. *)
Definition truthy_str (s : option string) : option string :=
match s with
| Some EmptyString => None
| other => other
end.

End Text.

Import Text.

(** ** Generic SQL result shaping *)

Section Sql.
Context {A : Type}.

(** [ORDER BY]: a stable insertion sort of the rows in scan order;
    [before a b] says that [a] may stand before [b]. *)
Fixpoint insert_by (before : A -> A -> bool) (x : A) (l : list A) : list A :=
  match l with
  | [] => [x]
  | y :: l' => if before x y then x :: l else y :: insert_by before x l'
  end.

Fixpoint order_by (before : A -> A -> bool) (l : list A) : list A :=
  match l with
  | [] => []
  | x :: l' => insert_by before x (order_by before l')
  end.

(** [LIMIT n]: a negative bound means no bound. *)
Definition sql_limit (n : Z) (l : list A) : list A :=
  if (n <? 0)%Z then l else firstn (Z.to_nat n) l.
End Sql.

(** ** The tables *)

Record episodic_row := mkEpisodic {
  e_id : Z;
  e_timestamp : string;
  e_content : string;
  e_context : string;
  e_importance_score : Q;
  e_emotional_valence : Q;
  e_emotional_arousal : Q;
  e_tags : option string;            (* JSON text, NULL when no tags *)
  e_relationship_context : string;
  e_consolidated : bool
}.

Record semantic_row := mkSemantic {
  s_id : Z;
  s_key : string;
  s_value : string;
  s_confidence : Q;
  s_source_memory_id : option Z;
  s_last_accessed : string;
  s_access_count : Z;
  s_created_at : string
}.

Record emotional_row := mkEmotional {
  em_id : Z;
  em_timestamp : string;
  em_emotion_type : string;
  em_intensity : Q;
  em_memory_id : option Z
}.

Record preference_row := mkPreference {
  p_category : string;
  p_preference_key : string;
  p_preference_value : string;
  p_confidence : Q;
  p_last_updated : string
}.

Record association_row := mkAssociation {
  a_memory_id_1 : Z;
  a_memory_id_2 : Z;
  a_association_strength : Q;
  a_association_type : option string
}.

Record media_row := mkMedia {
  m_id : Z;
  m_memory_id : Z;
  m_media_type : string;
  m_file_path : string;
  m_description : string
}.

(** The database: the tables the modelled operations read or write, and the
    [sqlite_sequence] counters of the two [AUTOINCREMENT] keys they insert
    into. *)
Record store := mkStore {
  episodic_memories : list episodic_row;
  episodic_seq : Z;
  semantic_memories : list semantic_row;
  semantic_seq : Z;
  emotional_memories : list emotional_row;
  user_preferences : list preference_row;
  memory_associations : list association_row;
  media_memories : list media_row
}.

Definition empty_store : store := mkStore [] 0 [] 0 [] [] [] [].

Definition set_episodic (s : store) (rows : list episodic_row) (seq : Z) :=
  mkStore rows seq (semantic_memories s) (semantic_seq s)
          (emotional_memories s) (user_preferences s)
          (memory_associations s) (media_memories s).

Definition set_semantic (s : store) (rows : list semantic_row) (seq : Z) :=
  mkStore (episodic_memories s) (episodic_seq s) rows seq
          (emotional_memories s) (user_preferences s)
          (memory_associations s) (media_memories s).

(** The rowid an [AUTOINCREMENT] insert gets: one more than the largest of
    the recorded sequence value and the rowids in the table. *)
Definition next_rowid (seq : Z) (ids : list Z) : Z :=
  (fold_right Z.max seq ids + 1)%Z.

(** ** What the operations return *)

(** The dictionary [recall_episodic] builds for a row. *)
Record episodic_dict := mkEpisodicDict {
  d_id : Z;
  d_timestamp : string;
  d_content : string;
  d_context : string;
  d_importance_score : Q;
  d_emotional_valence : Q;
  d_emotional_arousal : Q;
  d_tags : list string;
  d_relationship_context : string
}.

(** The dictionary [recall_semantic] returns: the record of one fact, or a
    map from key to value and confidence (Python's [{}] is [SemMap []]). *)
Inductive semantic_result :=
| SemRecord (key value : string) (confidence : Q)
            (last_accessed : string) (access_count : Z)
| SemMap (entries : list (string * (string * Q))).

Record preference_dict := mkPreferenceDict {
  pd_key : string;
  pd_value : string;
  pd_confidence : Q;
  pd_last_updated : string
}.

Record related_dict := mkRelatedDict {
  r_id : Z;
  r_content : string;
  r_importance_score : Q
}.

(** A call either returns or raises [sqlite3.OperationalError]. *)
Inductive outcome (A : Type) :=
| Returned (a : A)
| OperationalError (message : string).
Arguments Returned {A} a.
Arguments OperationalError {A} message.

(** A [WHERE] clause built as a conjunction of conditions. *)
Definition sql_where {A : Type} (conds : list (A -> bool)) (r : A) : bool :=
  forallb (fun c => c r) conds.

(** [ORDER BY importance_score DESC, timestamp DESC]. *)
Definition episodic_before (a b : episodic_row) : bool :=
  match (e_importance_score a ?= e_importance_score b)%Q with
  | Gt => true
  | Lt => false
  | Eq => String.leb (e_timestamp b) (e_timestamp a)
  end.

(** [ORDER BY importance_score DESC]. *)
Definition importance_before (a b : episodic_row) : bool :=
  Qle_bool (e_importance_score b) (e_importance_score a).

(** [ORDER BY access_count DESC, last_accessed DESC]. *)
Definition semantic_before (a b : semantic_row) : bool :=
  match (s_access_count a ?= s_access_count b)%Z with
  | Gt => true
  | Lt => false
  | Eq => String.leb (s_last_accessed b) (s_last_accessed a)
  end.

(** [relationship_context LIKE '%persona:<name>%']. *)
Definition persona_like (persona : string) (r : episodic_row) : bool :=
  like ("%persona:" ++ persona ++ "%") (e_relationship_context r).

(** [tags LIKE '%t1%' OR tags LIKE '%t2%' OR ...]. *)
Definition tags_like (tags : list string) (r : episodic_row) : bool :=
  existsb (fun t => like_null ("%" ++ t ++ "%") (e_tags r)) tags.

(** [content LIKE '%k1%' OR content LIKE '%k2%' OR ...]. *)
Definition content_like (keywords : list string) (r : episodic_row) : bool :=
  existsb (fun k => like ("%" ++ k ++ "%") (e_content r)) keywords.

(** ** The operations of [EnhancedMemory] *)

Section Memory.

Variable json_dumps : list string -> string.
Variable json_loads : string -> list string.

(** [remember_episodic]: one [INSERT]; [timestamp] and [consolidated] take
    their column defaults. *)
Definition remember_episodic (now : string)
    (content context : string) (importance valence arousal : Q)
    (tags : list string) (relationship_context : string) (s : store)
  : Z * store :=
  let tags_str :=
    match tags with [] => None | _ :: _ => Some (json_dumps tags) end in
  let memory_id :=
    next_rowid (episodic_seq s) (map e_id (episodic_memories s)) in
  let row := mkEpisodic memory_id now content context importance
                        valence arousal tags_str relationship_context
                        false in
  (memory_id, set_episodic s (episodic_memories s ++ [row]) memory_id).

(** [remember_semantic]: [INSERT OR REPLACE] on the unique [key]; the new
    [access_count] is read from the row being replaced. *)
Definition remember_semantic (now : string) (key value : string)
    (confidence : Q) (source_memory_id : option Z) (s : store) : store :=
  let previous :=
    find (fun r => String.eqb (s_key r) key) (semantic_memories s) in
  let access_count :=
    (match previous with Some r => s_access_count r | None => 0 end + 1)%Z in
  let id := next_rowid (semantic_seq s) (map s_id (semantic_memories s)) in
  let row := mkSemantic id key value confidence source_memory_id now
                        access_count now in
  set_semantic s
    (filter (fun r => negb (String.eqb (s_key r) key)) (semantic_memories s)
     ++ [row])
    id.

(** [get_preference]: [None] is Python's [None]. *)
Definition get_preference (category key : string) (s : store)
  : option preference_dict :=
  match filter (fun r => String.eqb (p_category r) category
                         && String.eqb (p_preference_key r) key)
               (user_preferences s) with
  | [] => None
  | r :: _ => Some (mkPreferenceDict (p_preference_key r)
                      (p_preference_value r) (p_confidence r)
                      (p_last_updated r))
  end.

Definition row_to_dict (r : episodic_row) : episodic_dict :=
  mkEpisodicDict (e_id r) (e_timestamp r) (e_content r) (e_context r)
    (e_importance_score r) (e_emotional_valence r) (e_emotional_arousal r)
    (match e_tags r with
     | None | Some EmptyString => []
     | Some j => json_loads j
     end)
    (e_relationship_context r).

(** The conditions [recall_episodic] appends to its query.  [cutoff_of d]
    is [(datetime.now() - timedelta(days=d)).isoformat()]. *)
Definition recall_conditions (cutoff_of : Z -> string) (min_importance : Q)
    (tags : list string) (days_back : option Z) (persona : option string)
  : list (episodic_row -> bool) :=
  [fun r => Qle_bool min_importance (e_importance_score r)]
  ++ match truthy_str persona with
     | Some p => [persona_like p]
     | None => []
     end
  ++ match days_back with
     | None | Some 0%Z => []
     | Some d => [fun r => String.leb (cutoff_of d) (e_timestamp r)]
     end
  ++ match tags with
     | [] => []
     | _ :: _ => [tags_like tags]
     end.

Definition recall_rows (cutoff_of : Z -> string) (limit : Z)
    (min_importance : Q) (tags : list string) (days_back : option Z)
    (persona : option string) (s : store) : list episodic_row :=
  sql_limit limit
    (order_by episodic_before
       (filter (sql_where (recall_conditions cutoff_of min_importance tags
                                             days_back persona))
               (episodic_memories s))).

Definition recall_episodic (cutoff_of : Z -> string) (limit : Z)
    (min_importance : Q) (tags : list string) (days_back : option Z)
    (persona : option string) (s : store) : list episodic_dict :=
  map row_to_dict
      (recall_rows cutoff_of limit min_importance tags days_back persona s).

(** [recall_semantic]: a keyed read that finds its row also updates it;
    the record returned is the row as it was selected. *)
Definition recall_semantic (now : string) (key : option string) (s : store)
  : semantic_result * store :=
  match truthy_str key with
  | Some k =>
      match find (fun r => String.eqb (s_key r) k) (semantic_memories s) with
      | Some row =>
          let touch r :=
            if String.eqb (s_key r) k
            then mkSemantic (s_id r) (s_key r) (s_value r) (s_confidence r)
                   (s_source_memory_id r) now (s_access_count r + 1)%Z
                   (s_created_at r)
            else r in
          (SemRecord (s_key row) (s_value row) (s_confidence row)
                     (s_last_accessed row) (s_access_count row),
           set_semantic s (map touch (semantic_memories s)) (semantic_seq s))
      | None => (SemMap [], s)
      end
  | None =>
      (SemMap (map (fun r => (s_key r, (s_value r, s_confidence r)))
                   (order_by semantic_before (semantic_memories s))),
       s)
  end.

(** The persona [find_related_memories] filters on: the one supplied, else
    the one read off the target's [relationship_context]. *)
Definition related_persona (persona : option string)
    (target_persona : string) : option string :=
  match truthy_str persona with
  | Some p => Some p
  | None =>
      match target_persona with
      | EmptyString => persona
      | _ =>
          if contains "persona:" target_persona
          then Some (py_strip
                       (hd "" (py_split "|"
                          (last (py_split "persona:" target_persona) ""))))
          else persona
      end
  end.

Definition to_related (r : episodic_row) : related_dict :=
  mkRelatedDict (e_id r) (e_content r) (e_importance_score r).

(** [json.loads(target[0][0]) if target[0][0] else []]. *)
Definition target_tags_of (target : episodic_row) : list string :=
  match e_tags target with
  | None | Some EmptyString => []
  | Some j => json_loads j
  end.

(** [set(target_content.lower().split()[:5])]. *)
Definition target_keywords (target : episodic_row) : list string :=
  py_set (firstn 5 (py_words (py_lower (e_content target)))).

(** The two [SELECT]s of [find_related_memories] differ in one condition. *)
Definition related_query (memory_id limit : Z)
    (matching : episodic_row -> bool)
    (persona_filter : list (episodic_row -> bool)) (s : store)
  : list related_dict :=
  map to_related
    (sql_limit limit
       (order_by importance_before
          (filter (sql_where ([fun r => negb (Z.eqb (e_id r) memory_id);
                               matching] ++ persona_filter))
                  (episodic_memories s)))).

(** [find_related_memories].  With no tags and no word in the content the
    keyword query reads [... AND ()], which SQLite refuses. *)
Definition find_related_memories (memory_id : Z) (limit : Z)
    (persona : option string) (s : store) : outcome (list related_dict) :=
  match filter (fun r => Z.eqb (e_id r) memory_id) (episodic_memories s) with
  | [] => Returned []
  | target :: _ =>
      let persona_filter :=
        match truthy_str
                (related_persona persona (e_relationship_context target)) with
        | Some p => [persona_like p]
        | None => []
        end in
      match target_tags_of target with
      | _ :: _ =>
          Returned (related_query memory_id limit
                      (tags_like (target_tags_of target)) persona_filter s)
      | [] =>
          match target_keywords target with
          | [] => OperationalError "syntax error near )"
          | _ :: _ =>
              Returned (related_query memory_id limit
                          (content_like (target_keywords target))
                          persona_filter s)
          end
      end
  end.

(** [UPDATE episodic_memories SET consolidated = 1 WHERE id = ?]. *)
Definition mark_consolidated (memory_id : Z) (s : store) : store :=
  set_episodic s
    (map (fun r =>
            if Z.eqb (e_id r) memory_id
            then mkEpisodic (e_id r) (e_timestamp r) (e_content r)
                   (e_context r) (e_importance_score r)
                   (e_emotional_valence r) (e_emotional_arousal r)
                   (e_tags r) (e_relationship_context r) true
            else r)
         (episodic_memories s))
    (episodic_seq s).

(** The rows [consolidate_memories] selects: unconsolidated and older
    than the cut-off, most important first. *)
Definition consolidation_candidates (cutoff : string) (s : store)
  : list episodic_row :=
  order_by importance_before
    (filter (fun r => negb (e_consolidated r)
                      && String.ltb (e_timestamp r) cutoff)
            (episodic_memories s)).

(** [if importance > 0.7]. *)
Definition important (r : episodic_row) : bool :=
  if Qlt_le_dec (7 # 10) (e_importance_score r) then true else false.

(** The call [self.remember_semantic(semantic_key, content, ...)] of the
    loop, for the memory [r]. *)
Definition remember_event (now : string) (r : episodic_row) (s : store)
  : store :=
  remember_semantic now ("important_event_" ++ py_str_int (e_id r))
                    (e_content r) (e_importance_score r) (Some (e_id r)) s.

(** [conn.commit()] after the loop: the [UPDATE]s it held reach the
    database. *)
Definition commit_updates (pending : list Z) (s : store) : store :=
  fold_left (fun st memory_id => mark_consolidated memory_id st) pending s.

(** The loop of [consolidate_memories].  It runs on the connection that
    made the selection, and that connection commits only after the loop:
    until then its [UPDATE]s are [pending], in a transaction that holds the
    write lock of the database.  [remember_semantic] opens a connection of
    its own and commits on it: with no update pending its write goes
    through at once; with an update pending it cannot take the write lock
    and the call raises [database is locked].  The exception leaves the
    function before the commit, so the pending updates are rolled back;
    what [remember_semantic] committed stays.  [s] is the committed
    database. *)
Fixpoint consolidate_loop (now : string) (memories : list episodic_row)
    (pending : list Z) (s : store) : outcome unit * store :=
  match memories with
  | [] => (Returned tt, commit_updates pending s)
  | r :: rest =>
      if important r then
        match pending with
        | [] => consolidate_loop now rest [e_id r] (remember_event now r s)
        | _ :: _ => (OperationalError "database is locked", s)
        end
      else consolidate_loop now rest (pending ++ [e_id r]) s
  end.

(** [consolidate_memories]: what the call does (returns, or raises) and
    the database it leaves. *)
Definition consolidate_memories (cutoff now : string) (s : store)
  : outcome unit * store :=
  consolidate_loop now (consolidation_candidates cutoff s) [] s.

(** [clear_old_memories]: the counts are the dictionary's items in
    insertion order. *)
Definition old_memory_ids (cutoff : string) (min_importance : Q) (s : store)
  : list Z :=
  map e_id
    (filter (fun r => String.ltb (e_timestamp r) cutoff
                      && negb (Qle_bool min_importance (e_importance_score r)))
            (episodic_memories s)).

Definition id_in (ids : list Z) (id : Z) : bool := existsb (Z.eqb id) ids.

Definition id_in_null (ids : list Z) (id : option Z) : bool :=
  match id with Some i => id_in ids i | None => false end.

Definition count_of {A : Type} (f : A -> bool) (l : list A) : Z :=
  Z.of_nat (List.length (filter f l)).

Definition clear_old_memories (cutoff : string) (min_importance : Q)
    (s : store) : list (string * Z) * store :=
  match old_memory_ids cutoff min_importance s with
  | [] => ([("episodic", 0); ("semantic", 0); ("emotional", 0);
            ("media", 0)]%Z, s)
  | memory_ids =>
      let dead_assoc r :=
        id_in memory_ids (a_memory_id_1 r)
        || id_in memory_ids (a_memory_id_2 r) in
      let dead_media r := id_in memory_ids (m_memory_id r) in
      let dead_emotional r := id_in_null memory_ids (em_memory_id r) in
      let dead_semantic r := id_in_null memory_ids (s_source_memory_id r) in
      let dead_episodic r := id_in memory_ids (e_id r) in
      ([("episodic", Z.of_nat (List.length memory_ids));
        ("associations", count_of dead_assoc (memory_associations s));
        ("media", count_of dead_media (media_memories s));
        ("emotional", count_of dead_emotional (emotional_memories s));
        ("semantic", count_of dead_semantic (semantic_memories s))],
       mkStore
         (filter (fun r => negb (dead_episodic r)) (episodic_memories s))
         (episodic_seq s)
         (filter (fun r => negb (dead_semantic r)) (semantic_memories s))
         (semantic_seq s)
         (filter (fun r => negb (dead_emotional r)) (emotional_memories s))
         (user_preferences s)
         (filter (fun r => negb (dead_assoc r)) (memory_associations s))
         (filter (fun r => negb (dead_media r)) (media_memories s)))
  end.

(** ** The merge step of [retrieve_memories] in [mo11y_agent.py] *)

(** The loop over [topic_memories + recent_memories] with its [seen_ids]
    set, then the slice [[:5]]. *)
Definition combine_step (acc : list Z * list episodic_dict)
    (mem : episodic_dict) : list Z * list episodic_dict :=
  let (seen_ids, combined_memories) := acc in
  if id_in seen_ids (d_id mem)
  then acc
  else (d_id mem :: seen_ids, combined_memories ++ [mem]).

Definition combine_memories (topic_memories recent_memories
                               : list episodic_dict) : list episodic_dict :=
  firstn 5
    (snd (fold_left combine_step (topic_memories ++ recent_memories)
                    ([], []))).

Definition topic_memories_of (cutoff_of : Z -> string)
    (persona_name : string) (topics : list string) (s : store)
  : list episodic_dict :=
  match topics with
  | [] => []
  | _ :: _ =>
      recall_episodic cutoff_of 3 (3 # 10) (firstn 3 topics) (Some 30%Z)
                      (Some persona_name) s
  end.

Definition recent_memories_of (cutoff_of : Z -> string)
    (persona_name : string) (s : store) : list episodic_dict :=
  recall_episodic cutoff_of 2 (5 # 10) [] (Some 7%Z) (Some persona_name) s.

Definition retrieve_episodic (cutoff_of : Z -> string)
    (persona_name : string) (topics : list string) (s : store)
  : list episodic_dict :=
  combine_memories (topic_memories_of cutoff_of persona_name topics s)
                   (recent_memories_of cutoff_of persona_name s).

(** [d[k] = v] on a Python dictionary kept as its items in order. *)
Fixpoint dict_set {V : Type} (k : string) (v : V)
    (d : list (string * V)) : list (string * V) :=
  match d with
  | [] => [(k, v)]
  | (k', v') :: d' =>
      if String.eqb k' k then (k, v) :: d' else (k', v') :: dict_set k v d'
  end.

(** The semantic look-ups of [retrieve_memories]: one keyed read per topic
    among the first three, kept when the dictionary returned is not
    empty. *)
Definition semantic_step (now : string)
    (acc : list (string * semantic_result) * store) (topic : string)
  : list (string * semantic_result) * store :=
  let (found, s) := acc in
  let (semantic, s') := recall_semantic now (Some topic) s in
  match semantic with
  | SemMap [] => (found, s')
  | _ => (dict_set topic semantic found, s')
  end.

Definition retrieve_semantic (now : string) (topics : list string)
    (s : store) : list (string * semantic_result) * store :=
  fold_left (semantic_step now) (firstn 3 topics) ([], s).

End Memory.

(** ** A JSON codec for lists of plain tags

    The codec the concrete stores below are built with: [json.dumps] and
    [json.loads] on lists of ASCII strings without control characters. *)

Module Json.

Definition dquote : ascii := ascii_of_N 34.
Definition backslash : ascii := ascii_of_N 92.

Fixpoint escape (s : string) : string :=
  match s with
  | EmptyString => EmptyString
  | String c s' =>
      if Ascii.eqb c dquote || Ascii.eqb c backslash
      then String backslash (String c (escape s'))
      else String c (escape s')
  end.

Definition quote (s : string) : string :=
  String dquote (escape s ++ String dquote EmptyString).

Definition dumps (l : list string) : string :=
  "[" ++ String.concat ", " (map quote l) ++ "]".

(** [inside]: within a string literal; [escaped]: just after a backslash. *)
Fixpoint loads_aux (inside escaped : bool) (cur : string) (s : string)
  : list string :=
  match s with
  | EmptyString => []
  | String c s' =>
      if inside then
        if escaped then loads_aux true false (cur ++ String c "") s'
        else if Ascii.eqb c backslash then loads_aux true true cur s'
        else if Ascii.eqb c dquote then cur :: loads_aux false false "" s'
        else loads_aux true false (cur ++ String c "") s'
      else if Ascii.eqb c dquote then loads_aux true false "" s'
      else loads_aux false false "" s'
  end.

Definition loads (s : string) : list string := loads_aux false false "" s.

End Json.

(** ** Definitions used by the statements *)

(** [COALESCE((SELECT access_count ... WHERE key = ?), 0)]. *)
Definition stored_access_count (key : string) (s : store) : Z :=
  match find (fun r => String.eqb (s_key r) key) (semantic_memories s) with
  | Some r => s_access_count r
  | None => 0%Z
  end.

Definition set_consolidated (r : episodic_row) : episodic_row :=
  mkEpisodic (e_id r) (e_timestamp r) (e_content r) (e_context r)
    (e_importance_score r) (e_emotional_valence r) (e_emotional_arousal r)
    (e_tags r) (e_relationship_context r) true.

(** The effect of the commit of [consolidate_memories] on the episodic
    table: the rows whose id was updated are flagged, the others are
    untouched. *)
Definition flag_visited (ids : list Z) (r : episodic_row) : episodic_row :=
  if id_in ids (e_id r) then set_consolidated r else r.

(** ** The two passes of a retrieval, stated apart from the query

    What follows is written from the description of the ranker, not from
    the code: the relation of a pattern to the texts it matches, the
    ranking order, and a pass as "of the stored memories the filter admits,
    in ranking order, the first so many". *)

(** SQL's [LIKE] as a relation between a pattern and the texts it matches:
    [%] stands for any run of characters, [_] for any one character, every
    other character for itself, ASCII letters without regard to case. *)
Inductive like_matches : string -> string -> Prop :=
| like_end : like_matches "" ""
| like_run_empty (p v : string) :
    like_matches p v -> like_matches (String "%" p) v
| like_run_more (p : string) (c : ascii) (v : string) :
    like_matches (String "%" p) v ->
    like_matches (String "%" p) (String c v)
| like_any_char (p : string) (c : ascii) (v : string) :
    like_matches p v -> like_matches (String "_" p) (String c v)
| like_same_char (a : ascii) (p : string) (c : ascii) (v : string) :
    a <> "%"%char -> lower_ascii a = lower_ascii c ->
    like_matches p v -> like_matches (String a p) (String c v).

(** [a] is ranked before [b]: [a] is more important, or as important and
    not stamped earlier. *)
Definition ranks_before (a b : episodic_row) : Prop :=
  (e_importance_score b < e_importance_score a)%Q
  \/ ((e_importance_score a == e_importance_score b)%Q
      /\ String.leb (e_timestamp b) (e_timestamp a) = true).

(** A pass over the stored [rows]: the rows the filter admits, each once,
    in ranking order, cut to the first [cap]. *)
Definition pass_of (cap : nat) (admits : episodic_row -> Prop)
    (rows selected : list episodic_row) : Prop :=
  exists ranked others : list episodic_row,
    Permutation rows (ranked ++ others)
    /\ Forall admits ranked
    /\ Forall (fun r => ~ admits r) others
    /\ StronglySorted ranks_before ranked
    /\ selected = firstn cap ranked.

(** The day and the time of day of a timestamp [YYYY-MM-DD HH:MM:SS] or of
    a cut-off date [YYYY-MM-DDTHH:MM:SS.ffffff].  Days written this way
    follow the calendar when compared as text. *)
Definition day_of (t : string) : string := substring 0 10 t.

Definition clock_of (t : string) : string := substring 11 8 t.

(** The memory is stamped on a later day than the cut-off. *)
Definition after_day (cutoff : string) (r : episodic_row) : Prop :=
  String.ltb (day_of cutoff) (day_of (e_timestamp r)) = true.

(** No stored memory is stamped on the day of the 30 day cut-off or of the
    7 day cut-off. *)
Definition off_cutoff_days (cutoff_of : Z -> string)
    (rows : list episodic_row) : Prop :=
  Forall (fun r => day_of (e_timestamp r) <> day_of (cutoff_of 30%Z)
                   /\ day_of (e_timestamp r) <> day_of (cutoff_of 7%Z))
         rows.

(** The persona filter: the pattern [%persona:<name>%] matches the
    relationship context; with an empty name there is no filter. *)
Definition persona_admits (persona : string) (r : episodic_row) : Prop :=
  persona = ""
  \/ like_matches ("%persona:" ++ persona ++ "%") (e_relationship_context r).

(** The tag filter: for one of the first three topics, the pattern
    [%<topic>%] matches the stored tag text. *)
Definition topic_admits (topics : list string) (r : episodic_row) : Prop :=
  exists topic text : string,
    In topic (firstn 3 topics)
    /\ e_tags r = Some text
    /\ like_matches ("%" ++ topic ++ "%") text.

Definition pass_A_admits (cutoff_of : Z -> string) (persona : string)
    (topics : list string) (r : episodic_row) : Prop :=
  persona_admits persona r
  /\ (3 # 10 <= e_importance_score r)%Q
  /\ after_day (cutoff_of 30%Z) r
  /\ topic_admits topics r.

Definition pass_B_admits (cutoff_of : Z -> string) (persona : string)
    (r : episodic_row) : Prop :=
  persona_admits persona r
  /\ (5 # 10 <= e_importance_score r)%Q
  /\ after_day (cutoff_of 7%Z) r.

(** The filters as the claim words them, on a memory as returned: one of
    the supplied tags is among the memory's tags; the relationship context
    holds [persona:<name>]; the memory's instant is not before the
    cut-off's. *)
Definition claimed_tag_match (tags : list string) (d : episodic_dict)
  : Prop :=
  exists t : string, In t tags /\ In t (d_tags d).

Definition claimed_persona_match (persona : string) (d : episodic_dict)
  : Prop :=
  exists before after : string,
    d_relationship_context d
    = (before ++ "persona:" ++ persona ++ after)%string.

Definition claimed_not_before (cutoff timestamp : string) : Prop :=
  String.ltb (day_of cutoff) (day_of timestamp) = true
  \/ (day_of cutoff = day_of timestamp
      /\ String.leb (clock_of cutoff) (clock_of timestamp) = true).

(** Dropping duplicates by id, the first occurrence kept. *)
Fixpoint spec_drop_duplicates (l : list episodic_dict) : list episodic_dict :=
  match l with
  | [] => []
  | x :: l' =>
      x :: filter (fun y => negb (d_id y =? d_id x)%Z)
                  (spec_drop_duplicates l')
  end.

Definition spec_merge (pass_a pass_b : list episodic_dict)
  : list episodic_dict :=
  firstn 5 (spec_drop_duplicates (pass_a ++ pass_b)).

(** The loop of [combine_memories], unrolled: what it appends when it
    starts with the ids [seen]. *)
Fixpoint unseen (seen : list Z) (l : list episodic_dict)
  : list episodic_dict :=
  match l with
  | [] => []
  | x :: l' =>
      if id_in seen (d_id x) then unseen seen l'
      else x :: unseen (d_id x :: seen) l'
  end.

(** Two personas, one name a prefix of the other, each with one memory
    carrying the same tags and content, written through [remember_episodic]
    with the tag [store_memory] builds. *)
Module Scenario.

Definition persona_tag (name : string) : string :=
  "conversation|persona:" ++ name.

Definition alex_then_mercer : store :=
  let s1 :=
    snd (remember_episodic Json.dumps "2025-01-10 12:00:00"
           "invoice overdue" "" (8 # 10) 0 0 ["billing"]
           (persona_tag "Alex") empty_store) in
  snd (remember_episodic Json.dumps "2025-01-11 09:00:00"
         "invoice overdue" "" (6 # 10) 0 0 ["billing"]
         (persona_tag "Alex Mercer") s1).

End Scenario.

(** A store with one old, unimportant memory that a media row, an
    association and a semantic fact refer to, and one recent memory. *)
Definition retention_store : store :=
  mkStore
    [mkEpisodic 1 "2024-01-05 08:00:00" "small talk" "" (1 # 10) 0 0 None
                "conversation|persona:Mo11y" false;
     mkEpisodic 2 "2025-03-01 08:00:00" "invoice overdue" "" (9 # 10) 0 0
                None "conversation|persona:Mo11y" false]
    2
    [mkSemantic 1 "topic" "small talk" 1 (Some 1%Z) "2024-01-05 08:00:00" 1
                "2024-01-05 08:00:00";
     mkSemantic 2 "name" "Dallas" 1 None "2024-01-05 08:00:00" 1
                "2024-01-05 08:00:00"]
    2
    [mkEmotional 1 "2024-01-05 08:00:00" "calm" (1 # 2) (Some 1%Z)]
    []
    [mkAssociation 1 2 (1 # 2) None]
    [mkMedia 1 1 "image" "media/images/1_ab12.png" "a cat";
     mkMedia 2 2 "image" "media/images/2_cd34.png" "an invoice"].

(** The scenario of the specification: four memories of persona "Mo11y"
    tagged "billing", one of them 40 days old, seen on 2025-02-10; a fifth
    memory belongs to another persona. *)
Module Billing.

Definition clock (days : Z) : string :=
  if (days =? 30)%Z then "2025-01-11T12:00:00.000000"
  else "2025-02-03T12:00:00.000000".

Definition write (now : string) (importance : Q) (persona : string)
    (s : store) : store :=
  snd (remember_episodic Json.dumps now "invoice overdue" "" importance
         0 0 ["billing"] (Scenario.persona_tag persona) s).

Definition billing_store : store :=
  write "2025-02-09 10:00:00" (99 # 100) "Alex Mercer"
    (write "2025-02-08 10:00:00" (95 # 100) "Mo11y"
       (write "2025-02-06 10:00:00" (6 # 10) "Mo11y"
          (write "2025-02-05 10:00:00" (2 # 10) "Mo11y"
             (write "2025-01-01 10:00:00" (9 # 10) "Mo11y" empty_store)))).

End Billing.

(** ** Preferences *)

Definition set_preferences (s : store) (rows : list preference_row) : store :=
  mkStore (episodic_memories s) (episodic_seq s) (semantic_memories s)
          (semantic_seq s) (emotional_memories s) rows
          (memory_associations s) (media_memories s).

Definition same_preference (category key : string) (r : preference_row)
  : bool :=
  String.eqb (p_category r) category && String.eqb (p_preference_key r) key.

(** [update_preference]: [INSERT OR REPLACE] on the primary key
    [(category, preference_key)]. *)
Definition update_preference (now : string) (category key value : string)
    (confidence : Q) (s : store) : store :=
  set_preferences s
    (filter (fun r => negb (same_preference category key r))
            (user_preferences s)
     ++ [mkPreference category key value confidence now]).

(** [ORDER BY last_updated DESC]. *)
Definition updated_before (a b : preference_row) : bool :=
  String.leb (p_last_updated b) (p_last_updated a).

(** The order in which the index of the primary key
    [(category, preference_key)] yields the rows of one category: by key,
    ascending. *)
Definition key_before (a b : preference_row) : bool :=
  String.leb (p_preference_key a) (p_preference_key b).

(** [get_preferences_by_category]: the dictionary filled row by row, keyed
    by [preference_key], each value holding value, confidence and
    [last_updated].  The rows of the category are read through the index
    of the primary key and then sorted on [last_updated]: rows updated at
    the same time come by ascending key. *)
Definition get_preferences_by_category (category : string) (s : store)
  : list (string * (string * Q * string)) :=
  fold_left
    (fun preferences row =>
       dict_set (p_preference_key row)
                (p_preference_value row, p_confidence row, p_last_updated row)
                preferences)
    (order_by updated_before
       (order_by key_before
          (filter (fun r => String.eqb (p_category r) category)
                  (user_preferences s))))
    [].

(** The primary key of [user_preferences]. *)
Definition preference_pk (r : preference_row) : string * string :=
  (p_category r, p_preference_key r).

(** What a read may change in a row: the access count goes up by at most
    one, the time of last access may move, nothing else does. *)
Definition touched (before after : semantic_row) : Prop :=
  s_id after = s_id before
  /\ s_key after = s_key before
  /\ s_value after = s_value before
  /\ s_confidence after = s_confidence before
  /\ s_source_memory_id after = s_source_memory_id before
  /\ s_created_at after = s_created_at before
  /\ (s_access_count before <= s_access_count after
      <= s_access_count before + 1)%Z.


(** [d.get(k)] on a dictionary kept as its items. *)
Definition dict_get {V : Type} (k : string) (d : list (string * V))
  : option V :=
  option_map snd (find (fun kv => String.eqb (fst kv) k) d).

(** The [WHERE] clause of the selection in [clear_old_memories]. *)
Definition old_and_unimportant (cutoff : string) (min_importance : Q)
    (r : episodic_row) : bool :=
  String.ltb (e_timestamp r) cutoff
  && negb (Qle_bool min_importance (e_importance_score r)).

(** ** The importance [store_memory] computes (mo11y_agent.py) *)

(** [_calculate_importance]: [has_question] is the truth value of
    [context.get("has_question")], [user_sentiment] is
    [context.get("user_sentiment")], absent when the key is. *)
Definition calculate_importance (has_question : bool)
    (user_sentiment : option Q) (user_input : string) : Q :=
  let importance := 5 # 10 in
  let importance :=
    if has_question then importance + (1 # 10) else importance in
  let sentiment :=
    Qabs (match user_sentiment with Some v => v | None => 0 end) in
  let importance := importance + sentiment * (2 # 10) in
  let importance :=
    if (100 <? String.length user_input)%nat
    then importance + (1 # 10) else importance in
  Qmin 1 importance.

(** ** The two timestamp formats the code compares

    The [timestamp] column is filled by [CURRENT_TIMESTAMP], text of the
    form [YYYY-MM-DD HH:MM:SS]; the cut-off dates are
    [datetime.isoformat()], text of the form [YYYY-MM-DDTHH:MM:SS.ffffff].
    Both start with the date; they differ in the character after it. *)
Definition current_timestamp (date time : string) : string :=
  date ++ " " ++ time.

Definition isoformat (date time : string) : string :=
  date ++ "T" ++ time.

(** What a keyed read finds: for a non-empty key, a fact stored under it;
    for the empty string, read as a call without key, any fact at all. *)
Definition fact_found (key : string) (s : store) : Prop :=
  match key with
  | EmptyString => map s_key (semantic_memories s) <> []
  | _ => In key (map s_key (semantic_memories s))
  end.

(** The billing store with one more memory of persona "Mo11y", older than
    30 days and of importance 0.8: two memories above 0.7 are then due for
    consolidation. *)
Definition two_important_store : store :=
  Billing.write "2025-01-02 10:00:00" (8 # 10) "Mo11y" Billing.billing_store.

(** One memory of persona "Mo11y" tagged "billing", of importance 0.4,
    two days old on 2025-02-10. *)
Definition billing_tag_store : store :=
  Billing.write "2025-02-08 10:00:00" (4 # 10) "Mo11y" empty_store.

(** One memory of persona "Mo11y", of importance 0.9, stamped on the day of
    the 7 day cut-off ([Billing.clock 7], at 12:00:00), three hours after
    it. *)
Definition cutoff_day_store : store :=
  Billing.write "2025-02-03 15:00:00" (9 # 10) "Mo11y" empty_store.

(** One memory written without a persona in its relationship context. *)
Definition no_persona_store : store :=
  snd (remember_episodic Json.dumps "2025-02-08 10:00:00" "invoice overdue"
         "" (9 # 10) 0 0 ["billing"] "general" empty_store).

(** * Properties *)

(** ** Result shaping: [ORDER BY] and [LIMIT] *)

Section LimitFacts.
Context {A : Type}.

Lemma firstn_subset (n : nat) (y : A) (l : list A) :
  In y (firstn n l) -> In y l.
Proof.
  revert l. induction n as [|n IH]; intros [|x l]; simpl; try tauto.
  intros [H|H]; [now left | right; now apply IH].
Qed.

Lemma sql_limit_In (n : Z) (y : A) (l : list A) :
  In y (sql_limit n l) -> In y l.
Proof.
  unfold sql_limit. destruct (n <? 0)%Z; [tauto|].
  apply firstn_subset.
Qed.

Lemma sql_limit_nat (n : nat) (l : list A) :
  sql_limit (Z.of_nat n) l = firstn n l.
Proof.
  unfold sql_limit.
  destruct (Z.of_nat n <? 0)%Z eqn:E; [apply Z.ltb_lt in E; lia|].
  now rewrite Nat2Z.id.
Qed.

Lemma sql_limit_firstn (n : Z) (l : list A) :
  (0 <= n)%Z -> sql_limit n l = firstn (Z.to_nat n) l.
Proof.
  intros H. unfold sql_limit.
  destruct (n <? 0)%Z eqn:E; [apply Z.ltb_lt in E; lia | reflexivity].
Qed.

Lemma firstn_sorted (R : A -> A -> Prop) (n : nat) (l : list A) :
  Sorted R l -> Sorted R (firstn n l).
Proof.
  intros H. revert n.
  induction H as [|z l Hs IH Hd]; intros [|n]; simpl; try constructor.
  - apply IH.
  - destruct Hd; destruct n; simpl; constructor; assumption.
Qed.
End LimitFacts.

Section OrderFacts.
Context {A : Type}.
Variable before : A -> A -> bool.

Lemma insert_by_In (x y : A) (l : list A) :
  In y (insert_by before x l) <-> y = x \/ In y l.
Proof.
  induction l as [|z l IH]; simpl.
  - intuition congruence.
  - destruct (before x z); simpl; rewrite ?IH; intuition congruence.
Qed.

Lemma order_by_In (y : A) (l : list A) :
  In y (order_by before l) <-> In y l.
Proof.
  induction l as [|x l IH]; simpl.
  - tauto.
  - rewrite insert_by_In, IH. intuition congruence.
Qed.

Lemma insert_by_length (x : A) (l : list A) :
  List.length (insert_by before x l) = S (List.length l).
Proof.
  induction l as [|z l IH]; simpl; [reflexivity|].
  destruct (before x z); simpl; congruence.
Qed.

Lemma order_by_length (l : list A) :
  List.length (order_by before l) = List.length l.
Proof.
  induction l as [|x l IH]; simpl; [reflexivity|].
  now rewrite insert_by_length, IH.
Qed.

Lemma order_by_nil (l : list A) : l = [] -> order_by before l = [].
Proof. now intros ->. Qed.

(** With a total comparison the sorted list is ordered pairwise. *)
Hypothesis before_total : forall a b, before a b = true \/ before b a = true.

Lemma insert_by_sorted (x : A) (l : list A) :
  Sorted (fun a b => before a b = true) l ->
  Sorted (fun a b => before a b = true) (insert_by before x l).
Proof.
  induction 1 as [|z l Hs IH Hd]; simpl.
  - repeat constructor.
  - destruct (before x z) eqn:E.
    + repeat constructor; assumption.
    + constructor; [assumption|].
      destruct l as [|w l]; simpl in *.
      * constructor. destruct (before_total x z); congruence.
      * destruct (before x w).
        -- constructor. destruct (before_total x z); congruence.
        -- constructor. now inversion Hd.
Qed.

Lemma order_by_sorted (l : list A) :
  Sorted (fun a b => before a b = true) (order_by before l).
Proof.
  induction l as [|x l IH]; simpl; [constructor|].
  now apply insert_by_sorted.
Qed.

End OrderFacts.

Lemma filter_filter {A : Type} (f g : A -> bool) (l : list A) :
  filter f (filter g l) = filter (fun x => g x && f x) l.
Proof.
  induction l as [|x l IH]; simpl; [reflexivity|].
  destruct (g x); simpl; [destruct (f x)|]; now rewrite IH.
Qed.

Lemma filter_none {A : Type} (f : A -> bool) (l : list A) :
  (forall x, In x l -> f x = false) -> filter f l = [].
Proof.
  induction l as [|x l IH]; simpl; intros H; [reflexivity|].
  rewrite (H x (or_introl eq_refl)). apply IH. auto.
Qed.

(** The two orders of [recall_episodic] and [recall_semantic] are total. *)
Lemma episodic_before_total (a b : episodic_row) :
  episodic_before a b = true \/ episodic_before b a = true.
Proof.
  unfold episodic_before.
  rewrite <- (Qcompare_antisym (e_importance_score a) (e_importance_score b)).
  destruct (e_importance_score a ?= e_importance_score b)%Q; simpl; auto.
  destruct (String.leb_total (e_timestamp b) (e_timestamp a)); auto.
Qed.


(** ** Persona filtering in the reads *)

Section PersonaFilter.
Variable json_loads : string -> list string.

Lemma sql_where_In {A : Type} (conds : list (A -> bool)) (c : A -> bool)
      (r : A) :
  sql_where conds r = true -> In c conds -> c r = true.
Proof.
  unfold sql_where. rewrite forallb_forall. auto.
Qed.

(** What the filter of [recall_episodic] does guarantee: every row returned
    for a non-empty persona name has a [relationship_context] that the
    pattern [%persona:<name>%] matches. *)
Lemma recall_rows_persona_like cutoff_of limit min_importance tags days_back
      (p : string) (s : store) (r : episodic_row) :
  p <> "" ->
  In r (recall_rows cutoff_of limit min_importance tags days_back (Some p) s) ->
  In r (episodic_memories s) /\ persona_like p r = true.
Proof.
  intros Hp Hin. unfold recall_rows in Hin.
  apply sql_limit_In in Hin. apply order_by_In in Hin.
  apply filter_In in Hin. destruct Hin as [Hin Hw]. split; [exact Hin|].
  apply (sql_where_In _ (persona_like p) _ Hw).
  unfold recall_conditions.
  apply in_or_app; right. apply in_or_app; left.
  destruct p as [|c p]; [congruence|]. left. reflexivity.
Qed.

Lemma related_query_excludes_target memory_id limit matching pf (s : store)
      (d : related_dict) :
  In d (related_query memory_id limit matching pf s) -> r_id d <> memory_id.
Proof.
  unfold related_query. intros Hd. apply in_map_iff in Hd.
  destruct Hd as (r & <- & Hr).
  apply sql_limit_In, order_by_In, filter_In in Hr.
  destruct Hr as [_ Hw]. simpl in Hw.
  apply andb_true_iff in Hw. destruct Hw as [Hne _].
  apply negb_true_iff, Z.eqb_neq in Hne. exact Hne.
Qed.

(** [find_related_memories] never returns the memory it was asked about. *)
Lemma find_related_excludes_target memory_id limit persona (s : store)
      (l : list related_dict) :
  find_related_memories json_loads memory_id limit persona s = Returned l ->
  forall d, In d l -> r_id d <> memory_id.
Proof.
  unfold find_related_memories.
  destruct (filter _ (episodic_memories s)) as [|target rest].
  - intros [= <-] d [].
  - destruct (target_tags_of json_loads target) as [|t ts].
    + destruct (target_keywords target) as [|k ks]; [discriminate|].
      intros [= <-] d. apply related_query_excludes_target.
    + intros [= <-] d. apply related_query_excludes_target.
Qed.
End PersonaFilter.

(** C1.  Persona isolation of episodic recall fails on the code: with a
    memory written for persona "Alex" and one written for persona
    "Alex Mercer", [recall_episodic] called with persona "Alex" returns both,
    the second one being the memory of the other persona.  The pattern
    [%persona:Alex%] matches every tag in which the name is followed by more
    text. *)
Theorem recall_episodic_returns_other_persona :
  map (fun d => (d_id d, d_relationship_context d))
      (recall_episodic Json.loads (fun _ => "") 10 0 [] None (Some "Alex")
                       Scenario.alex_then_mercer)
  = [(1%Z, "conversation|persona:Alex");
     (2%Z, "conversation|persona:Alex Mercer")].
Proof. vm_compute. reflexivity. Qed.

(** C8.  The related-memory lookup crosses personas on the code: asked for
    the memory of persona "Alex" (id 1), it derives the persona "Alex" from
    the target's tag and returns memory 2, which was written for persona
    "Alex Mercer".  The target itself is left out. *)
Theorem find_related_returns_other_persona :
  find_related_memories Json.loads 1 5 None Scenario.alex_then_mercer
  = Returned [mkRelatedDict 2 "invoice overdue" (6 # 10)]
  /\ related_persona None (Scenario.persona_tag "Alex") = Some "Alex"
  /\ map e_relationship_context
         (filter (fun r => (e_id r =? 2)%Z)
                 (episodic_memories Scenario.alex_then_mercer))
     = [Scenario.persona_tag "Alex Mercer"].
Proof. vm_compute. repeat split. Qed.

(** ** Semantic facts: upsert and keyed read *)

Lemma find_hd_filter {A : Type} (f : A -> bool) (l : list A) :
  find f l = hd_error (filter f l).
Proof.
  induction l as [|x l IH]; simpl; [reflexivity|].
  destruct (f x); simpl; [reflexivity | exact IH].
Qed.

(** After a write the table holds exactly one row under the key: the one
    just written, its counter one above the counter it replaced. *)
Lemma remember_semantic_row now key value confidence source (s : store) :
  filter (fun r => String.eqb (s_key r) key)
         (semantic_memories
            (remember_semantic now key value confidence source s))
  = [mkSemantic
       (next_rowid (semantic_seq s) (map s_id (semantic_memories s)))
       key value confidence source now
       (stored_access_count key s + 1)%Z now].
Proof.
  unfold remember_semantic, stored_access_count. simpl.
  rewrite filter_app, filter_filter. simpl.
  rewrite String.eqb_refl.
  rewrite filter_none; [reflexivity|].
  intros x _. destruct (String.eqb (s_key x) key); reflexivity.
Qed.

Lemma remember_semantic_count now key value confidence source (s : store) :
  stored_access_count key
    (remember_semantic now key value confidence source s)
  = (stored_access_count key s + 1)%Z.
Proof.
  unfold stored_access_count at 1.
  rewrite find_hd_filter, remember_semantic_row. reflexivity.
Qed.

(** C6.  Semantic upsert, last write wins: on a store with no fact under
    key [k], writing [(k, v1)] and then [(k, v2)] leaves exactly one row
    under [k]; it holds [v2] and the second confidence; its [access_count]
    is 1 after the first write and 2 after the second. *)
Theorem remember_semantic_last_write_wins
    (now1 now2 k v1 v2 : string) (c1 c2 : Q) (src1 src2 : option Z)
    (s : store) :
  (forall r, In r (semantic_memories s) -> s_key r <> k) ->
  let s1 := remember_semantic now1 k v1 c1 src1 s in
  let s2 := remember_semantic now2 k v2 c2 src2 s1 in
  (exists row1,
      filter (fun r => String.eqb (s_key r) k) (semantic_memories s1) = [row1]
      /\ s_value row1 = v1 /\ s_access_count row1 = 1%Z)
  /\ (exists row2,
      filter (fun r => String.eqb (s_key r) k) (semantic_memories s2) = [row2]
      /\ s_value row2 = v2 /\ s_confidence row2 = c2
      /\ s_access_count row2 = 2%Z).
Proof.
  intros Hfresh s1 s2.
  assert (H0 : stored_access_count k s = 0%Z).
  { unfold stored_access_count.
    destruct (find _ (semantic_memories s)) as [r|] eqn:E; [|reflexivity].
    apply find_some in E. destruct E as [Hin Hk].
    apply String.eqb_eq in Hk. now destruct (Hfresh r Hin). }
  split.
  - eexists. split; [apply remember_semantic_row|].
    simpl. rewrite H0. auto.
  - eexists. split; [apply remember_semantic_row|].
    simpl. subst s1. rewrite remember_semantic_count, H0. auto.
Qed.

Lemma remember_semantic_last_write_wins_witness :
  (exists row1,
      filter (fun r => String.eqb (s_key r) "k")
        (semantic_memories
           (remember_semantic "2025-01-10 12:00:00" "k" "v1" 1 None
                              empty_store)) = [row1]
      /\ s_value row1 = "v1" /\ s_access_count row1 = 1%Z)
  /\ (exists row2,
      filter (fun r => String.eqb (s_key r) "k")
        (semantic_memories
           (remember_semantic "2025-01-10 12:00:05" "k" "v2" (9 # 10) None
              (remember_semantic "2025-01-10 12:00:00" "k" "v1" 1 None
                                 empty_store))) = [row2]
      /\ s_value row2 = "v2" /\ s_confidence row2 = (9 # 10)
      /\ s_access_count row2 = 2%Z).
Proof.
  apply (remember_semantic_last_write_wins
           "2025-01-10 12:00:00" "2025-01-10 12:00:05" "k" "v1" "v2"
           1 (9 # 10) None None empty_store).
  simpl. intros r [].
Defined.

(** ** Consolidation *)

Lemma flag_visited_cons (i : Z) (ids : list Z) (r : episodic_row) :
  flag_visited ids (flag_visited [i] r) = flag_visited (i :: ids) r.
Proof.
  unfold flag_visited, id_in. simpl. rewrite orb_false_r.
  destruct (e_id r =? i)%Z; simpl.
  - destruct (existsb _ ids); reflexivity.
  - reflexivity.
Qed.

Lemma mark_consolidated_episodic (i : Z) (s : store) :
  episodic_memories (mark_consolidated i s)
  = map (flag_visited [i]) (episodic_memories s).
Proof.
  unfold mark_consolidated. simpl. apply map_ext. intros x.
  unfold flag_visited, id_in. simpl. rewrite orb_false_r. reflexivity.
Qed.

(** The commit flags the rows whose id was updated and touches nothing
    else. *)
Lemma commit_updates_episodic (ids : list Z) (s : store) :
  episodic_memories (commit_updates ids s)
  = map (flag_visited ids) (episodic_memories s).
Proof.
  unfold commit_updates. revert s.
  induction ids as [|i ids IH]; intros s; simpl.
  - symmetry. erewrite map_ext; [apply map_id|]. reflexivity.
  - rewrite IH, mark_consolidated_episodic, map_map.
    apply map_ext. intros x. apply flag_visited_cons.
Qed.

Lemma commit_updates_other_tables (ids : list Z) (s : store) :
  semantic_memories (commit_updates ids s) = semantic_memories s
  /\ user_preferences (commit_updates ids s) = user_preferences s
  /\ memory_associations (commit_updates ids s) = memory_associations s
  /\ media_memories (commit_updates ids s) = media_memories s
  /\ emotional_memories (commit_updates ids s) = emotional_memories s.
Proof.
  unfold commit_updates. revert s.
  induction ids as [|i ids IH]; intros s; simpl; [auto|].
  destruct (IH (mark_consolidated i s)) as (H1 & H2 & H3 & H4 & H5).
  rewrite H1, H2, H3, H4, H5. auto.
Qed.

(** The write the loop makes for its first memory, when that one is above
    the threshold. *)
Lemma first_write_tables now (r : episodic_row) (s : store) :
  episodic_memories (if important r then remember_event now r s else s)
  = episodic_memories s
  /\ user_preferences (if important r then remember_event now r s else s)
     = user_preferences s
  /\ memory_associations (if important r then remember_event now r s else s)
     = memory_associations s
  /\ media_memories (if important r then remember_event now r s else s)
     = media_memories s
  /\ emotional_memories (if important r then remember_event now r s else s)
     = emotional_memories s.
Proof. destruct (important r); simpl; auto. Qed.

(** Once an update is pending, the loop raises at the first memory above
    the threshold and otherwise runs to the commit. *)
Lemma consolidate_loop_pending now (l : list episodic_row) (p : Z)
      (ps : list Z) (s : store) :
  consolidate_loop now l (p :: ps) s
  = if existsb important l
    then (OperationalError "database is locked", s)
    else (Returned tt, commit_updates ((p :: ps) ++ map e_id l) s).
Proof.
  revert ps. induction l as [|r l IH]; intros ps; simpl.
  - now rewrite app_nil_r.
  - destruct (important r); simpl; [reflexivity|].
    rewrite IH. destruct (existsb important l); [reflexivity|].
    simpl. rewrite <- app_assoc. reflexivity.
Qed.

(** The call in closed form: nothing selected, nothing done; otherwise the
    first memory is written when above the threshold, and the call raises
    when a later one is above it too. *)
Lemma consolidate_memories_cases cutoff now (s : store) :
  consolidate_memories cutoff now s
  = match consolidation_candidates cutoff s with
    | [] => (Returned tt, s)
    | c :: rest =>
        let s1 := if important c then remember_event now c s else s in
        if existsb important rest
        then (OperationalError "database is locked", s1)
        else (Returned tt, commit_updates (map e_id (c :: rest)) s1)
    end.
Proof.
  unfold consolidate_memories.
  destruct (consolidation_candidates cutoff s) as [|c rest];
    [reflexivity|].
  simpl. destruct (important c); simpl; apply consolidate_loop_pending.
Qed.

Lemma id_in_spec (ids : list Z) (i : Z) : id_in ids i = true <-> In i ids.
Proof.
  unfold id_in. rewrite existsb_exists. split.
  - intros (x & Hx & E). apply Z.eqb_eq in E. now subst.
  - intros H. exists i. split; [exact H | apply Z.eqb_refl].
Qed.


(** A table in which every selected row has been flagged offers no row to
    select. *)
Lemma flagged_leaves_no_candidate cutoff (s s' : store) :
  episodic_memories s'
  = map (flag_visited (map e_id (consolidation_candidates cutoff s)))
        (episodic_memories s) ->
  consolidation_candidates cutoff s' = [].
Proof.
  intros E. unfold consolidation_candidates at 1. rewrite E.
  apply order_by_nil. apply filter_none.
  intros x Hx. apply in_map_iff in Hx. destruct Hx as (r & <- & Hr).
  unfold flag_visited.
  destruct (id_in _ (e_id r)) eqn:Ei; [reflexivity|].
  destruct (negb (e_consolidated r) && String.ltb (e_timestamp r) cutoff)
    eqn:P; [|reflexivity].
  exfalso.
  assert (Hc : In r (consolidation_candidates cutoff s)).
  { apply order_by_In, filter_In. split; assumption. }
  assert (Hi : id_in (map e_id (consolidation_candidates cutoff s)) (e_id r)
               = true).
  { apply id_in_spec, in_map, Hc. }
  congruence.
Qed.




(** ** Retention *)

Lemma Forall_filter_negb {A : Type} (dead : A -> bool) (l : list A) :
  Forall (fun r => dead r = false) (filter (fun r => negb (dead r)) l).
Proof.
  apply Forall_forall. intros r Hr. apply filter_In in Hr.
  destruct Hr as [_ Hr]. now apply negb_true_iff in Hr.
Qed.

(** The selection of [clear_old_memories] is what its two comparisons say. *)
Lemma old_memory_ids_spec cutoff min_importance (s : store) (i : Z) :
  In i (old_memory_ids cutoff min_importance s) <->
  exists r, In r (episodic_memories s) /\ e_id r = i
            /\ String.ltb (e_timestamp r) cutoff = true
            /\ (e_importance_score r < min_importance)%Q.
Proof.
  unfold old_memory_ids. rewrite in_map_iff. split.
  - intros (r & <- & Hr). apply filter_In in Hr. destruct Hr as [Hin Hp].
    apply andb_true_iff in Hp. destruct Hp as [Ht Hi].
    exists r. repeat split; try assumption.
    apply negb_true_iff in Hi. apply Qnot_le_lt. intro Hle.
    apply Qle_bool_iff in Hle. congruence.
  - intros (r & Hin & <- & Ht & Hi). exists r. split; [reflexivity|].
    apply filter_In. split; [exact Hin|].
    rewrite Ht. simpl. apply negb_true_iff.
    destruct (Qle_bool min_importance (e_importance_score r)) eqn:E;
      [|reflexivity].
    apply Qle_bool_iff in E. exfalso. exact (Qlt_not_le _ _ Hi E).
Qed.

(** C5.  Retention cascade: after [clear_old_memories] no media row,
    association row or semantic fact that remains refers to an episodic id
    of the selection, and no episodic row with such an id remains; when the
    selection is empty the call returns zero for every count and the store
    it leaves is the store it found. *)
Theorem clear_old_memories_cascade (cutoff : string) (min_importance : Q)
    (s : store) :
  let deleted := old_memory_ids cutoff min_importance s in
  let s' := snd (clear_old_memories cutoff min_importance s) in
  Forall (fun r => id_in deleted (m_memory_id r) = false) (media_memories s')
  /\ Forall (fun r => id_in deleted (a_memory_id_1 r) = false
                      /\ id_in deleted (a_memory_id_2 r) = false)
            (memory_associations s')
  /\ Forall (fun r => id_in_null deleted (s_source_memory_id r) = false)
            (semantic_memories s')
  /\ Forall (fun r => id_in deleted (e_id r) = false) (episodic_memories s')
  /\ (deleted = [] ->
      s' = s
      /\ Forall (fun kv => snd kv = 0%Z)
                (fst (clear_old_memories cutoff min_importance s))).
Proof.
  intros deleted s'. subst s' deleted. unfold clear_old_memories.
  destruct (old_memory_ids cutoff min_importance s) as [|i ids].
  - simpl. repeat split;
      try (apply Forall_forall; intros; simpl; auto; fail).
    + apply Forall_forall. intros r _.
      destruct (s_source_memory_id r); reflexivity.
    + repeat constructor.
  - simpl snd. cbn [media_memories memory_associations semantic_memories
                    episodic_memories].
    repeat split.
    + apply (Forall_filter_negb (fun r => id_in (i :: ids) (m_memory_id r))).
    + eapply Forall_impl;
        [|apply (Forall_filter_negb
                   (fun r => id_in (i :: ids) (a_memory_id_1 r)
                             || id_in (i :: ids) (a_memory_id_2 r)))].
      intros r Hr. simpl in Hr. apply orb_false_iff in Hr. exact Hr.
    + apply (Forall_filter_negb
               (fun r => id_in_null (i :: ids) (s_source_memory_id r))).
    + apply (Forall_filter_negb (fun r => id_in (i :: ids) (e_id r))).
    + discriminate.
    + discriminate.
Qed.

Lemma clear_old_memories_cascade_witness :
  clear_old_memories "2024-12-01T00:00:00.000000" (3 # 10) retention_store
  = ([("episodic", 1); ("associations", 1); ("media", 1); ("emotional", 1);
      ("semantic", 1)]%Z,
     mkStore
       [mkEpisodic 2 "2025-03-01 08:00:00" "invoice overdue" "" (9 # 10) 0 0
                   None "conversation|persona:Mo11y" false]
       2
       [mkSemantic 2 "name" "Dallas" 1 None "2024-01-05 08:00:00" 1
                   "2024-01-05 08:00:00"]
       2 [] [] []
       [mkMedia 2 2 "image" "media/images/2_cd34.png" "an invoice"])
  /\ snd (clear_old_memories "2023-01-01T00:00:00.000000" (3 # 10)
                             retention_store) = retention_store
  /\ Forall (fun kv => snd kv = 0%Z)
            (fst (clear_old_memories "2023-01-01T00:00:00.000000" (3 # 10)
                                     retention_store)).
Proof.
  split; [vm_compute; reflexivity|].
  apply (clear_old_memories_cascade "2023-01-01T00:00:00.000000" (3 # 10)
                                    retention_store).
  vm_compute. reflexivity.
Defined.

(** ** Episodic writes *)

Lemma fold_max_ge (seq : Z) (ids : list Z) :
  (seq <= fold_right Z.max seq ids)%Z
  /\ Forall (fun i => (i <= fold_right Z.max seq ids)%Z) ids.
Proof.
  induction ids as [|i ids [IH1 IH2]]; simpl.
  - split; [lia | constructor].
  - split; [lia|]. constructor; [lia|].
    eapply Forall_impl; [|exact IH2]. simpl. intros; lia.
Qed.

(** An [AUTOINCREMENT] rowid is above every rowid in the table. *)
Lemma next_rowid_fresh (seq : Z) (ids : list Z) :
  Forall (fun i => (i < next_rowid seq ids)%Z) ids.
Proof.
  unfold next_rowid. destruct (fold_max_ge seq ids) as [_ H].
  eapply Forall_impl; [|exact H]. simpl. intros; lia.
Qed.

Section EpisodicWrite.
Variable json_dumps : list string -> string.

(** C4 as the code has it.  [remember_episodic] does not clamp: for every
    importance, inside [0,1] or not, the call returns and the row it
    appends holds the importance exactly as it was passed. *)
Theorem remember_episodic_keeps_importance
    (now content context : string) (importance valence arousal : Q)
    (tags : list string) (relationship_context : string) (s : store) :
  exists row,
    episodic_memories
      (snd (remember_episodic json_dumps now content context importance
              valence arousal tags relationship_context s))
    = episodic_memories s ++ [row]
    /\ e_id row
       = fst (remember_episodic json_dumps now content context importance
                valence arousal tags relationship_context s)
    /\ e_importance_score row = importance.
Proof.
  unfold remember_episodic. simpl. eexists. split; [reflexivity|].
  simpl. auto.
Qed.

(** C7 as the code has it.  [remember_episodic] does not inspect its
    content: for every content, empty or not, the call returns, appends
    exactly one row holding that content, returns the id of that row, a
    rowid above every rowid already in the table, and leaves the other
    tables as they were. *)
Theorem remember_episodic_accepts_any_content
    (now content context : string) (importance valence arousal : Q)
    (tags : list string) (relationship_context : string) (s : store) :
  let result := remember_episodic json_dumps now content context importance
                  valence arousal tags relationship_context s in
  (exists row,
      episodic_memories (snd result) = episodic_memories s ++ [row]
      /\ e_id row = fst result
      /\ e_content row = content
      /\ e_consolidated row = false)
  /\ Forall (fun r => (e_id r < fst result)%Z) (episodic_memories s)
  /\ semantic_memories (snd result) = semantic_memories s
  /\ user_preferences (snd result) = user_preferences s
  /\ memory_associations (snd result) = memory_associations s
  /\ media_memories (snd result) = media_memories s.
Proof.
  unfold remember_episodic. simpl. split.
  - eexists. split; [reflexivity|]. simpl. auto.
  - split; [|auto].
    pose proof (next_rowid_fresh (episodic_seq s)
                  (map e_id (episodic_memories s))) as H.
    rewrite Forall_map in H. exact H.
Qed.
End EpisodicWrite.

(** C4, the claim as stated fails: an importance of -0.4 is stored as -0.4
    and one of 1.7 as 1.7, where clamping would store 0 and 1. *)
Lemma remember_episodic_clamps_counterexample :
  let stored importance :=
    map e_importance_score
        (episodic_memories
           (snd (remember_episodic Json.dumps "2025-01-10 12:00:00"
                   "invoice overdue" "" importance 0 0 ["billing"]
                   "conversation|persona:Mo11y" empty_store))) in
  stored (-4 # 10) = [-4 # 10] /\ ~ (-4 # 10 == 0)%Q
  /\ stored (17 # 10) = [17 # 10] /\ ~ (17 # 10 == 1)%Q.
Proof.
  simpl. repeat split; intro H; discriminate H.
Qed.

(** C7, the claim as stated fails: called with the empty string as content,
    [remember_episodic] returns id 1 and the table holds a row with that
    id and empty content. *)
Lemma remember_episodic_rejects_empty_counterexample :
  let result := remember_episodic Json.dumps "2025-01-10 12:00:00"
                  "" "" (1 # 2) 0 0 [] "conversation|persona:Mo11y"
                  empty_store in
  fst result = 1%Z
  /\ map (fun r => (e_id r, e_content r)) (episodic_memories (snd result))
     = [(1%Z, "")].
Proof. vm_compute. split; reflexivity. Qed.

(** ** Reads that find nothing *)

Lemma find_map_keeps {A : Type} (f : A -> bool) (g : A -> A) (l : list A) :
  (forall x, f (g x) = f x) ->
  find f (map g l) = option_map g (find f l).
Proof.
  intros H. induction l as [|x l IH]; simpl; [reflexivity|].
  rewrite H. destruct (f x); [reflexivity | exact IH].
Qed.

Lemma nodup_nil_inv {A : Type} (dec : forall x y : A, {x = y} + {x <> y})
      (l : list A) :
  nodup dec l = [] -> l = [].
Proof.
  destruct l as [|a l]; [reflexivity|]. intros H. exfalso.
  assert (Ha : In a (nodup dec (a :: l))) by (apply nodup_In; now left).
  rewrite H in Ha. destruct Ha.
Qed.

Section EmptyReads.
Variable json_loads : string -> list string.



End EmptyReads.



(** ** The keyed semantic read *)

(** C10 as the code has it.  For a non-empty key with a stored fact,
    [recall_semantic] returns the record of the row as it was selected and
    leaves the row with [access_count] one higher and [last_accessed] set
    to the current time: the [access_count] returned is the stored one
    minus 1 and the [last_accessed] returned is the one before the call. *)
Theorem recall_semantic_returns_row_before_update
    (now key : string) (s : store) (row : semantic_row) :
  key <> "" ->
  find (fun r => String.eqb (s_key r) key) (semantic_memories s) = Some row ->
  let result := recall_semantic now (Some key) s in
  fst result
  = SemRecord (s_key row) (s_value row) (s_confidence row)
              (s_last_accessed row) (s_access_count row)
  /\ exists stored,
      find (fun r => String.eqb (s_key r) key)
           (semantic_memories (snd result)) = Some stored
      /\ s_access_count stored = (s_access_count row + 1)%Z
      /\ s_last_accessed stored = now
      /\ s_value stored = s_value row
      /\ s_confidence stored = s_confidence row.
Proof.
  intros Hk Hfind result. subst result. unfold recall_semantic.
  destruct key as [|c k]; [congruence|]. simpl truthy_str. cbv iota.
  rewrite Hfind. simpl. split; [reflexivity|].
  rewrite find_map_keeps.
  - rewrite Hfind. simpl.
    apply find_some in Hfind. destruct Hfind as [_ Hkey]. rewrite Hkey.
    eexists. split; [reflexivity|]. simpl. auto.
  - intros x. destruct (String.eqb (s_key x) (String c k)) eqn:E;
      simpl; rewrite ?E; reflexivity.
Qed.

Lemma recall_semantic_returns_row_before_update_witness :
  let s := remember_semantic "2025-01-10 12:00:00" "billing" "net 30" 1 None
                             empty_store in
  let result := recall_semantic "2025-01-12 10:00:00" (Some "billing") s in
  fst result = SemRecord "billing" "net 30" 1 "2025-01-10 12:00:00" 1
  /\ exists stored,
      find (fun r => String.eqb (s_key r) "billing")
           (semantic_memories (snd result)) = Some stored
      /\ s_access_count stored = 2%Z
      /\ s_last_accessed stored = "2025-01-12 10:00:00"
      /\ s_value stored = "net 30"
      /\ s_confidence stored = 1.
Proof.
  apply (recall_semantic_returns_row_before_update
           "2025-01-12 10:00:00" "billing"
           (remember_semantic "2025-01-10 12:00:00" "billing" "net 30" 1 None
                              empty_store)
           (mkSemantic 1 "billing" "net 30" 1 None "2025-01-10 12:00:00" 1
                       "2025-01-10 12:00:00")).
  - discriminate.
  - vm_compute. reflexivity.
Defined.

(** C10, the claim as stated fails for the empty key: a fact stored under
    the empty string is present, yet [recall_semantic] called with that key
    takes the branch of a call without key: it returns the map of all
    facts and leaves [access_count] and [last_accessed] as they were. *)
Lemma recall_semantic_empty_key_counterexample :
  let s := remember_semantic "2025-01-10 12:00:00" "" "net 30" 1 None
                             empty_store in
  map s_key (semantic_memories s) = [""]
  /\ recall_semantic "2025-01-12 10:00:00" (Some "") s
     = (SemMap [("", ("net 30", 1))], s)
  /\ map (fun r => (s_access_count r, s_last_accessed r))
         (semantic_memories
            (snd (recall_semantic "2025-01-12 10:00:00" (Some "") s)))
     = [(1%Z, "2025-01-10 12:00:00")].
Proof. vm_compute. repeat split. Qed.

(** ** The two-pass retrieval *)

Lemma combine_loop (l : list episodic_dict) (seen : list Z)
      (combined : list episodic_dict) :
  snd (fold_left combine_step l (seen, combined)) = combined ++ unseen seen l.
Proof.
  revert seen combined.
  induction l as [|x l IH]; intros seen combined; simpl.
  - now rewrite app_nil_r.
  - destruct (id_in seen (d_id x)).
    + apply IH.
    + rewrite IH, <- app_assoc. reflexivity.
Qed.

Lemma unseen_filter (l : list episodic_dict) (seen : list Z) :
  unseen seen l
  = filter (fun y => negb (id_in seen (d_id y))) (spec_drop_duplicates l).
Proof.
  revert seen. induction l as [|x l IH]; intros seen; simpl.
  - reflexivity.
  - destruct (id_in seen (d_id x)) eqn:E; simpl.
    + rewrite IH, filter_filter. apply filter_ext_in. intros y _.
      destruct (d_id y =? d_id x)%Z eqn:Ey; simpl; [|reflexivity].
      apply Z.eqb_eq in Ey. rewrite Ey, E. reflexivity.
    + f_equal. rewrite IH, filter_filter. apply filter_ext. intros y.
      unfold id_in. simpl.
      destruct (d_id y =? d_id x)%Z; reflexivity.
Qed.

Lemma filter_all {A : Type} (f : A -> bool) (l : list A) :
  (forall x, f x = true) -> filter f l = l.
Proof.
  intros H. induction l as [|x l IH]; simpl; [reflexivity|].
  now rewrite H, IH.
Qed.

Lemma combine_memories_merge (topic_memories recent_memories
                                : list episodic_dict) :
  combine_memories topic_memories recent_memories
  = spec_merge topic_memories recent_memories.
Proof.
  unfold combine_memories, spec_merge.
  rewrite combine_loop, unseen_filter. simpl.
  rewrite filter_all; reflexivity.
Qed.

Section Retrieval.
Variable json_loads : string -> list string.
Variable cutoff_of : Z -> string.

(** The semantic look-ups of a retrieval leave the episodic table alone. *)
Lemma recall_semantic_episodic now key (s : store) :
  episodic_memories (snd (recall_semantic now key s)) = episodic_memories s.
Proof.
  unfold recall_semantic. destruct (truthy_str key); [|reflexivity].
  destruct (find _ _); reflexivity.
Qed.

Lemma semantic_step_episodic now
      (acc : list (string * semantic_result) * store) (topic : string) :
  episodic_memories (snd (semantic_step now acc topic))
  = episodic_memories (snd acc).
Proof.
  destruct acc as [found s0]. unfold semantic_step.
  pose proof (recall_semantic_episodic now (Some topic) s0) as E.
  destruct (recall_semantic now (Some topic) s0) as [semantic s1].
  simpl in E.
  destruct semantic as [k v c la ac|[|e es]]; exact E.
Qed.

Lemma retrieve_semantic_episodic now (topics : list string) (s : store) :
  episodic_memories (snd (retrieve_semantic now topics s))
  = episodic_memories s.
Proof.
  unfold retrieve_semantic.
  assert (H : forall l acc,
             episodic_memories (snd (fold_left (semantic_step now) l acc))
             = episodic_memories (snd acc)).
  { induction l as [|t l IH]; intros acc; cbn [fold_left]; [reflexivity|].
    rewrite IH. apply semantic_step_episodic. }
  apply (H (firstn 3 topics) ([], s)).
Qed.

Lemma retrieve_episodic_ext persona_name topics (s1 s2 : store) :
  episodic_memories s1 = episodic_memories s2 ->
  retrieve_episodic json_loads cutoff_of persona_name topics s1
  = retrieve_episodic json_loads cutoff_of persona_name topics s2.
Proof.
  intros E.
  unfold retrieve_episodic, topic_memories_of, recent_memories_of,
    recall_episodic, recall_rows.
  now rewrite E.
Qed.

End Retrieval.

(** ** The scenario of the specification, evaluated *)

(** Pass A and pass B both find memories 4 and 3 (importance 0.95 and 0.6);
    memory 1 is too old, memory 2 not important enough, memory 5 belongs to
    another persona.  The merge keeps each id once. *)
Example billing_retrieval :
  map d_id (retrieve_episodic Json.loads Billing.clock "Mo11y" ["billing"]
                              Billing.billing_store)
  = [4; 3]%Z.
Proof. vm_compute. reflexivity. Qed.

(** Consolidation with a 30 day threshold writes one fact, for the 40 day
    old memory of importance 0.9, and flags that memory alone. *)
Example billing_consolidation :
  let result := consolidate_memories (Billing.clock 30) "2025-02-10 12:00:00"
                                     Billing.billing_store in
  fst result = Returned tt
  /\ map (fun r => (s_key r, s_source_memory_id r, s_access_count r))
         (semantic_memories (snd result))
     = [("important_event_1", Some 1%Z, 1%Z)]
  /\ map (fun r => (e_id r, e_consolidated r)) (episodic_memories (snd result))
     = [(1, true); (2, false); (3, false); (4, false); (5, false)]%Z.
Proof. vm_compute. repeat split. Qed.

(** With two memories above 0.7 due, the call raises at the second: the
    fact of the first is written, no row is flagged, and a second call
    writes that fact again and raises again. *)
Example two_important_consolidation :
  let once := consolidate_memories (Billing.clock 30) "2025-02-10 12:00:00"
                                   two_important_store in
  let twice := consolidate_memories (Billing.clock 30) "2025-02-10 12:05:00"
                                    (snd once) in
  fst once = OperationalError "database is locked"
  /\ map (fun r => (s_key r, s_access_count r)) (semantic_memories (snd once))
     = [("important_event_1", 1%Z)]
  /\ episodic_memories (snd once) = episodic_memories two_important_store
  /\ fst twice = OperationalError "database is locked"
  /\ map (fun r => (s_key r, s_access_count r)) (semantic_memories (snd twice))
     = [("important_event_1", 2%Z)].
Proof. vm_compute. repeat split. Qed.

(** * Further properties of the store *)

(** ** [LIKE] patterns that embed a text *)

Lemma like_percent (p v : string) :
  like (String "%" p) v
  = (like p v
     || match v with
        | EmptyString => false
        | String _ v' => like (String "%" p) v'
        end).
Proof. destruct v; reflexivity. Qed.

Lemma like_char (c d : ascii) (p v : string) :
  Ascii.eqb c "%" = false ->
  like (String c p) (String d v)
  = ((Ascii.eqb c "_" || Ascii.eqb (lower_ascii c) (lower_ascii d))
     && like p v).
Proof. intros H. simpl. rewrite H. reflexivity. Qed.

Lemma like_percent_here (p v : string) :
  like p v = true -> like (String "%" p) v = true.
Proof. intros H. rewrite like_percent, H. reflexivity. Qed.

Lemma like_percent_later (a p v : string) :
  like (String "%" p) v = true -> like (String "%" p) (a ++ v) = true.
Proof.
  intros H. induction a as [|c a IH]; simpl append; [exact H|].
  rewrite like_percent, IH. apply orb_true_r.
Qed.

Lemma like_percent_any (v : string) : like "%" v = true.
Proof.
  induction v as [|c v IH]; [reflexivity|].
  rewrite like_percent, IH. apply orb_true_r.
Qed.

(** A text followed by [%] matches every value that starts with the text,
    whatever characters the text holds. *)
Lemma like_prefix (x rest : string) : like (x ++ "%") (x ++ rest) = true.
Proof.
  induction x as [|c x IH]; simpl append.
  - apply like_percent_any.
  - destruct (Ascii.eqb c "%") eqn:E.
    + apply Ascii.eqb_eq in E. subst c.
      rewrite like_percent. apply orb_true_iff. right.
      apply like_percent_here, IH.
    + rewrite like_char by exact E.
      rewrite Ascii.eqb_refl, orb_true_r, IH. reflexivity.
Qed.

(** [%persona:<name>%] matches every tag that holds [persona:<name>]. *)
Lemma persona_like_tag (name before after : string) (r : episodic_row) :
  e_relationship_context r = (before ++ "persona:" ++ name ++ after)%string ->
  persona_like name r = true.
Proof.
  intros E. unfold persona_like. rewrite E.
  change ("%persona:" ++ name ++ "%")%string
    with (String "%" ("persona:" ++ name ++ "%")).
  apply like_percent_later, like_percent_here.
  cbn [append]. rewrite !like_char by reflexivity.
  cbn [lower_ascii]. simpl. apply like_prefix.
Qed.

(** ** What [recall_episodic] returns *)

Lemma Sorted_map {A B : Type} (R : A -> A -> Prop) (R' : B -> B -> Prop)
      (f : A -> B) (l : list A) :
  (forall a b, R a b -> R' (f a) (f b)) ->
  Sorted R l -> Sorted R' (map f l).
Proof.
  intros H. induction 1 as [|x l Hs IH Hd]; simpl; constructor.
  - exact IH.
  - destruct Hd; simpl; constructor. auto.
Qed.

Lemma episodic_before_importance (a b : episodic_row) :
  episodic_before a b = true ->
  (e_importance_score b <= e_importance_score a)%Q.
Proof.
  unfold episodic_before.
  destruct (e_importance_score a ?= e_importance_score b)%Q eqn:E;
    intros H; try discriminate.
  - apply Qeq_alt in E. rewrite E. apply Qle_refl.
  - apply Qgt_alt in E. apply Qlt_le_weak. exact E.
Qed.

Lemma firstn_whole {A : Type} (n : nat) (l : list A) :
  (List.length l <= n)%nat -> firstn n l = l.
Proof.
  revert n. induction l as [|x l IH]; intros [|n] H; simpl in *;
    try reflexivity; try lia.
  f_equal. apply IH. lia.
Qed.

Lemma filter_length_bound {A : Type} (f : A -> bool) (l : list A) :
  (List.length (filter f l) <= List.length l)%nat.
Proof.
  induction l as [|x l IH]; simpl; [lia|].
  destruct (f x); simpl; lia.
Qed.

Section RecallFacts.
Variable json_dumps : list string -> string.
Variable json_loads : string -> list string.
Variable cutoff_of : Z -> string.

(** X1.  Every memory [recall_episodic] returns is a stored row that passes
    each condition the call put in its query: the minimum importance, the
    persona pattern when a non-empty persona is given, the cut-off date
    when a non-zero [days_back] is given, one of the tags when tags are
    given.  With a non-negative limit at most [limit] memories come back,
    and they come most important first. *)
Theorem recall_episodic_sound (limit : Z) (min_importance : Q)
    (tags : list string) (days_back : option Z) (persona : option string)
    (s : store) :
  (0 <= limit)%Z ->
  let result := recall_episodic json_loads cutoff_of limit min_importance
                                tags days_back persona s in
  (List.length result <= Z.to_nat limit)%nat
  /\ Sorted (fun a b => (d_importance_score b <= d_importance_score a)%Q)
            result
  /\ forall d, In d result ->
       exists r,
         In r (episodic_memories s) /\ d = row_to_dict json_loads r
         /\ (min_importance <= e_importance_score r)%Q
         /\ (forall p, persona = Some p -> p <> "" -> persona_like p r = true)
         /\ (forall n, days_back = Some n -> n <> 0%Z ->
                       String.leb (cutoff_of n) (e_timestamp r) = true)
         /\ (tags <> [] -> tags_like tags r = true).
Proof.
  intros Hl result. subst result. unfold recall_episodic, recall_rows.
  rewrite sql_limit_firstn by exact Hl.
  split; [|split].
  - rewrite length_map. apply firstn_le_length.
  - apply (Sorted_map (fun a b => episodic_before a b = true)).
    + intros a b. apply episodic_before_importance.
    + apply firstn_sorted, order_by_sorted, episodic_before_total.
  - intros d Hd. apply in_map_iff in Hd. destruct Hd as (r & <- & Hr).
    apply firstn_subset, order_by_In, filter_In in Hr.
    destruct Hr as [Hin Hw]. exists r.
    split; [exact Hin|]. split; [reflexivity|].
    unfold sql_where, recall_conditions in Hw.
    rewrite !forallb_app in Hw.
    apply andb_true_iff in Hw. destruct Hw as [Hi Hw].
    apply andb_true_iff in Hw. destruct Hw as [Hp Hw].
    apply andb_true_iff in Hw. destruct Hw as [Hd Ht].
    split; [|split; [|split]].
    + simpl in Hi. rewrite andb_true_r in Hi. now apply Qle_bool_iff.
    + intros p -> Hne. destruct p as [|c p]; [congruence|].
      simpl in Hp. now rewrite andb_true_r in Hp.
    + intros n -> Hne. destruct n as [|n|n]; [congruence| |];
        simpl in Hd; now rewrite andb_true_r in Hd.
    + intros Hne. destruct tags as [|t ts]; [congruence|].
      cbn [forallb] in Ht. now rewrite andb_true_r in Ht.
Qed.

(** X2.  A memory written with a tag that holds [persona:<name>] is found
    again by a recall for that persona: when the importance written is at
    least the minimum asked for, the timestamp is not before the cut-off
    (when one is asked for) and the limit exceeds the number of stored
    rows, [recall_episodic] without tag filter returns the new memory. *)
Theorem remember_then_recall (now content context : string)
    (importance valence arousal : Q) (tags : list string)
    (before name after : string) (limit : Z) (min_importance : Q)
    (days_back : option Z) (s : store) :
  (min_importance <= importance)%Q ->
  (forall n, days_back = Some n -> String.leb (cutoff_of n) now = true) ->
  (Z.of_nat (List.length (episodic_memories s)) < limit)%Z ->
  let written :=
    remember_episodic json_dumps now content context importance valence
      arousal tags (before ++ "persona:" ++ name ++ after)%string s in
  exists d,
    In d (recall_episodic json_loads cutoff_of limit min_importance []
                          days_back (Some name) (snd written))
    /\ d_id d = fst written
    /\ d_content d = content
    /\ d_importance_score d = importance.
Proof.
  intros Hi Hd Hl written. subst written.
  unfold remember_episodic. cbn [fst snd].
  set (row := mkEpisodic _ now content context importance valence arousal
                         _ _ false).
  exists (row_to_dict json_loads row).
  split; [|repeat split].
  unfold recall_episodic, recall_rows. apply in_map.
  rewrite sql_limit_firstn by lia.
  rewrite firstn_whole.
  - apply order_by_In, filter_In. split.
    + simpl. apply in_or_app. right. now left.
    + unfold sql_where, recall_conditions. rewrite !forallb_app.
      apply andb_true_iff; split; [|apply andb_true_iff; split;
                                      [|apply andb_true_iff; split]].
      * cbn [forallb]. rewrite andb_true_r. now apply Qle_bool_iff.
      * destruct name as [|c name]; [reflexivity|].
        cbn [truthy_str forallb]. rewrite andb_true_r.
        apply (persona_like_tag (String c name) before after). reflexivity.
      * destruct days_back as [[|n|n]|]; try reflexivity;
          cbn [forallb]; rewrite andb_true_r; now apply Hd.
      * reflexivity.
  - rewrite order_by_length.
    etransitivity; [apply filter_length_bound|].
    simpl. rewrite length_app. simpl. lia.
Qed.

End RecallFacts.

Lemma recall_episodic_sound_witness :
  let result := recall_episodic Json.loads Billing.clock 3 (3 # 10)
                  ["billing"] (Some 30%Z) (Some "Mo11y")
                  Billing.billing_store in
  (List.length result <= 3)%nat
  /\ Sorted (fun a b => (d_importance_score b <= d_importance_score a)%Q)
            result
  /\ forall d, In d result ->
       exists r,
         In r (episodic_memories Billing.billing_store)
         /\ d = row_to_dict Json.loads r
         /\ (3 # 10 <= e_importance_score r)%Q
         /\ (forall p, Some "Mo11y" = Some p -> p <> "" ->
                       persona_like p r = true)
         /\ (forall n, Some 30%Z = Some n -> n <> 0%Z ->
                       String.leb (Billing.clock n) (e_timestamp r) = true)
         /\ (["billing"] <> [] -> tags_like ["billing"] r = true).
Proof.
  apply (recall_episodic_sound Json.loads Billing.clock 3 (3 # 10)
           ["billing"] (Some 30%Z) (Some "Mo11y") Billing.billing_store).
  lia.
Defined.

Lemma remember_then_recall_witness :
  let written :=
    remember_episodic Json.dumps "2025-02-09 18:00:00" "refund sent" ""
      (7 # 10) 0 0 ["billing"] ("conversation|" ++ "persona:" ++ "Mo11y" ++ "")%string
      Billing.billing_store in
  exists d,
    In d (recall_episodic Json.loads Billing.clock 10 (1 # 2) []
                          (Some 7%Z) (Some "Mo11y") (snd written))
    /\ d_id d = fst written
    /\ d_content d = "refund sent"
    /\ d_importance_score d = (7 # 10).
Proof.
  apply (remember_then_recall Json.dumps Json.loads Billing.clock
           "2025-02-09 18:00:00" "refund sent" ""
           (7 # 10) 0 0 ["billing"] "conversation|" "Mo11y" "" 10 (1 # 2)
           (Some 7%Z) Billing.billing_store).
  - discriminate.
  - intros n [= <-]. vm_compute. reflexivity.
  - vm_compute. reflexivity.
Defined.

(** ** Preferences: write, read back, primary key *)

Lemma get_preference_filter (category key : string) (s : store) :
  get_preference category key s
  = match filter (same_preference category key) (user_preferences s) with
    | [] => None
    | r :: _ => Some (mkPreferenceDict (p_preference_key r)
                        (p_preference_value r) (p_confidence r)
                        (p_last_updated r))
    end.
Proof. reflexivity. Qed.

Lemma same_preference_spec (category key : string) (r : preference_row) :
  same_preference category key r = true <-> preference_pk r = (category, key).
Proof.
  unfold same_preference, preference_pk. rewrite andb_true_iff.
  rewrite !String.eqb_eq. split.
  - intros [-> ->]. reflexivity.
  - intros [= -> ->]. auto.
Qed.

(** X3.  A preference written is the preference read: after
    [update_preference] the lookup of the same category and key returns
    the value and confidence just written, stamped with the time of the
    write, whatever the table held before; the lookup of any other
    category or key returns what it returned before. *)
Theorem update_then_get_preference (now category key value : string)
    (confidence : Q) (s : store) :
  get_preference category key
    (update_preference now category key value confidence s)
  = Some (mkPreferenceDict key value confidence now)
  /\ forall category' key',
       (category', key') <> (category, key) ->
       get_preference category' key'
         (update_preference now category key value confidence s)
       = get_preference category' key' s.
Proof.
  split.
  - rewrite get_preference_filter. unfold update_preference. simpl.
    rewrite filter_app, filter_filter. rewrite filter_none.
    + simpl. unfold same_preference. simpl.
      rewrite !String.eqb_refl. reflexivity.
    + intros r _. destruct (same_preference category key r); reflexivity.
  - intros category' key' Hne. rewrite !get_preference_filter.
    unfold update_preference. simpl.
    rewrite filter_app, filter_filter. simpl.
    assert (E : same_preference category' key'
                  (mkPreference category key value confidence now) = false).
    { destruct (same_preference category' key' _) eqn:E; [|reflexivity].
      apply same_preference_spec in E. unfold preference_pk in E. simpl in E.
      congruence. }
    rewrite E, app_nil_r.
    erewrite filter_ext_in; [reflexivity|].
    intros r _. simpl.
    destruct (same_preference category' key' r) eqn:E1;
      [|apply andb_false_r].
    destruct (same_preference category key r) eqn:E2; [|reflexivity].
    apply same_preference_spec in E1, E2. congruence.
Qed.

Lemma update_then_get_preference_witness :
  get_preference "ui" "theme"
    (update_preference "2025-02-10 09:00:00" "ui" "theme" "dark" 1
       (update_preference "2025-02-01 09:00:00" "ui" "theme" "light" 1
          empty_store))
  = Some (mkPreferenceDict "theme" "dark" 1 "2025-02-10 09:00:00")
  /\ get_preference "ui" "font"
       (update_preference "2025-02-10 09:00:00" "ui" "theme" "dark" 1
          (update_preference "2025-02-01 09:00:00" "ui" "font" "mono" 1
             empty_store))
     = get_preference "ui" "font"
         (update_preference "2025-02-01 09:00:00" "ui" "font" "mono" 1
            empty_store).
Proof.
  split.
  - apply (update_then_get_preference "2025-02-10 09:00:00" "ui" "theme"
             "dark" 1).
  - apply (update_then_get_preference "2025-02-10 09:00:00" "ui" "theme"
             "dark" 1).
    discriminate.
Defined.

Lemma pk_filter_NoDup (f : preference_row -> bool)
      (l : list preference_row) :
  NoDup (map preference_pk l) -> NoDup (map preference_pk (filter f l)).
Proof.
  induction l as [|r l IH]; simpl; intros H; [constructor|].
  inversion H as [|x xs Hnotin Hnd]; subst.
  destruct (f r); simpl; [|auto].
  constructor; [|auto].
  intros Hin. apply Hnotin. apply in_map_iff in Hin.
  destruct Hin as (r' & E & Hr'). apply filter_In in Hr'.
  apply in_map_iff. exists r'. tauto.
Qed.

(** X4.  [update_preference] keeps the primary key: after the call exactly
    one row carries the category and key written, and a table without two
    rows under one (category, key) stays such a table. *)
Theorem update_preference_primary_key (now category key value : string)
    (confidence : Q) (s : store) :
  filter (same_preference category key)
         (user_preferences
            (update_preference now category key value confidence s))
  = [mkPreference category key value confidence now]
  /\ (NoDup (map preference_pk (user_preferences s)) ->
      NoDup (map preference_pk
               (user_preferences
                  (update_preference now category key value confidence s)))).
Proof.
  split.
  - unfold update_preference. simpl.
    rewrite filter_app, filter_filter, filter_none.
    + simpl. unfold same_preference. simpl.
      rewrite !String.eqb_refl. reflexivity.
    + intros r _. destruct (same_preference category key r); reflexivity.
  - intros H. unfold update_preference. simpl. rewrite map_app.
    apply NoDup_app.
    + apply pk_filter_NoDup, H.
    + simpl. repeat constructor. intros [].
    + intros pk Hin [<-|[]]. apply in_map_iff in Hin.
      destruct Hin as (r & E & Hr). apply filter_In in Hr.
      destruct Hr as [_ Hr]. apply negb_true_iff in Hr.
      assert (E' : same_preference category key r = true)
        by (apply same_preference_spec; exact E).
      congruence.
Qed.

Lemma update_preference_primary_key_witness :
  NoDup (map preference_pk
           (user_preferences
              (update_preference "2025-02-10 09:00:00" "ui" "theme" "dark" 1
                 (update_preference "2025-02-01 09:00:00" "ui" "theme"
                    "light" 1 empty_store)))).
Proof.
  apply (update_preference_primary_key "2025-02-10 09:00:00" "ui" "theme"
           "dark" 1).
  vm_compute. repeat constructor; simpl; intuition discriminate.
Defined.

Lemma insert_by_perm {A : Type} (before : A -> A -> bool) (x : A)
      (l : list A) :
  Permutation (insert_by before x l) (x :: l).
Proof.
  induction l as [|y l IH]; simpl; [reflexivity|].
  destruct (before x y); [reflexivity|].
  rewrite IH. apply perm_swap.
Qed.

(** [ORDER BY] rearranges the rows it is given, no more. *)
Lemma order_by_perm {A : Type} (before : A -> A -> bool) (l : list A) :
  Permutation (order_by before l) l.
Proof.
  induction l as [|x l IH]; simpl; [reflexivity|].
  rewrite insert_by_perm. now constructor.
Qed.

Lemma dict_set_fresh {V : Type} (k : string) (v : V)
      (d : list (string * V)) :
  ~ In k (map fst d) -> dict_set k v d = d ++ [(k, v)].
Proof.
  induction d as [|[k' v'] d IH]; simpl; intros H; [reflexivity|].
  destruct (String.eqb k' k) eqn:E.
  - apply String.eqb_eq in E. tauto.
  - f_equal. apply IH. tauto.
Qed.

Lemma dict_fill_distinct {A V : Type} (key : A -> string) (val : A -> V)
      (l : list A) (d : list (string * V)) :
  NoDup (map fst d ++ map key l) ->
  fold_left (fun acc r => dict_set (key r) (val r) acc) l d
  = d ++ map (fun r => (key r, val r)) l.
Proof.
  revert d. induction l as [|r l IH]; intros d H; simpl.
  - now rewrite app_nil_r.
  - assert (Hr : ~ In (key r) (map fst d)).
    { intros Hin. simpl in H. apply NoDup_remove_2 in H.
      apply H. apply in_or_app. now left. }
    rewrite dict_set_fresh by exact Hr.
    rewrite IH.
    + rewrite <- app_assoc. reflexivity.
    + rewrite map_app. simpl. rewrite <- app_assoc. exact H.
Qed.

Lemma pk_unique_row (l : list preference_row) (r : preference_row) :
  NoDup (map preference_pk l) -> In r l ->
  filter (same_preference (p_category r) (p_preference_key r)) l = [r].
Proof.
  induction l as [|x l IH]; simpl; intros Hnd Hin; [destruct Hin|].
  inversion Hnd as [|y ys Hnotin Hnd']; subst.
  destruct (same_preference (p_category r) (p_preference_key r) x) eqn:E.
  - apply same_preference_spec in E.
    destruct Hin as [->|Hin].
    + f_equal. apply filter_none. intros z Hz.
      destruct (same_preference _ _ z) eqn:Ez; [|reflexivity].
      apply same_preference_spec in Ez. exfalso. apply Hnotin.
      apply in_map_iff. exists z. split; [|exact Hz].
      unfold preference_pk in *. congruence.
    + exfalso. apply Hnotin. apply in_map_iff. exists r.
      split; [|exact Hin]. unfold preference_pk in *. congruence.
  - destruct Hin as [->|Hin].
    + exfalso.
      assert (E' : same_preference (p_category r) (p_preference_key r) r
                   = true) by (apply same_preference_spec; reflexivity).
      congruence.
    + now apply IH.
Qed.

(** X5.  On a table that respects its primary key,
    [get_preferences_by_category] lists exactly the preferences stored
    under the category, one entry per key, most recently updated first,
    and each entry is what [get_preference] returns for that key. *)
Theorem get_preferences_by_category_complete (category : string)
    (s : store) :
  NoDup (map preference_pk (user_preferences s)) ->
  let result := get_preferences_by_category category s in
  (forall k v c t,
      In (k, (v, c, t)) result
      <-> In (mkPreference category k v c t) (user_preferences s))
  /\ NoDup (map fst result)
  /\ Sorted (fun a b => String.leb (snd (snd b)) (snd (snd a)) = true) result
  /\ (forall k v c t,
         In (k, (v, c, t)) result ->
         get_preference category k s = Some (mkPreferenceDict k v c t)).
Proof.
  intros Hnd result.
  set (rows := order_by updated_before
                 (order_by key_before
                    (filter (fun r => String.eqb (p_category r) category)
                            (user_preferences s)))).
  assert (Hkeys : NoDup (map p_preference_key rows)).
  { assert (Hp : Permutation rows
                   (filter (fun r => String.eqb (p_category r) category)
                           (user_preferences s))).
    { subst rows. eapply Permutation_trans; apply order_by_perm. }
    apply (Permutation_NoDup
             (Permutation_sym (Permutation_map p_preference_key Hp))).
    pose proof (pk_filter_NoDup
                  (fun r => String.eqb (p_category r) category) _ Hnd) as H.
    revert H. generalize (user_preferences s). intros l.
    induction l as [|x l IH]; simpl; [constructor|].
    destruct (String.eqb (p_category x) category) eqn:E; simpl; [|exact IH].
    intros H. inversion H as [|y ys Hnotin H']; subst.
    constructor; [|now apply IH].
    intros Hin. apply Hnotin. apply in_map_iff in Hin.
    destruct Hin as (r & Ek & Hr). apply in_map_iff. exists r.
    split; [|exact Hr]. apply filter_In in Hr. destruct Hr as [_ Ec].
    apply String.eqb_eq in E, Ec. unfold preference_pk. congruence. }
  assert (E : result
              = map (fun r => (p_preference_key r,
                               (p_preference_value r, p_confidence r,
                                p_last_updated r))) rows).
  { subst result. unfold get_preferences_by_category. fold rows.
    rewrite (dict_fill_distinct p_preference_key
               (fun r => (p_preference_value r, p_confidence r,
                          p_last_updated r))); [reflexivity|].
    exact Hkeys. }
  assert (Hin : forall k v c t,
             In (k, (v, c, t)) result
             <-> In (mkPreference category k v c t) (user_preferences s)).
  { intros k v c t. rewrite E, in_map_iff. split.
    - intros (r & [= <- <- <- <-] & Hr).
      apply order_by_In, order_by_In, filter_In in Hr.
      destruct Hr as [Hr Ec].
      apply String.eqb_eq in Ec. destruct r; simpl in *. now subst.
    - intros Hr. exists (mkPreference category k v c t).
      split; [reflexivity|].
      apply order_by_In, order_by_In, filter_In. split; [exact Hr|].
      simpl. apply String.eqb_refl. }
  split; [exact Hin|]. split; [|split].
  - rewrite E, map_map. exact Hkeys.
  - rewrite E.
    apply (Sorted_map (fun a b => updated_before a b = true)).
    + intros a b H. exact H.
    + apply order_by_sorted. intros a b. apply String.leb_total.
  - intros k v c t H. apply Hin in H.
    rewrite get_preference_filter.
    pose proof (pk_unique_row _ (mkPreference category k v c t) Hnd H) as U.
    simpl in U. rewrite U. reflexivity.
Qed.

Lemma get_preferences_by_category_complete_witness :
  let s := update_preference "2025-02-10 09:00:00" "ui" "theme" "dark" 1
             (update_preference "2025-02-01 09:00:00" "ui" "font" "mono" 1
                empty_store) in
  get_preference "ui" "theme" s
  = Some (mkPreferenceDict "theme" "dark" 1 "2025-02-10 09:00:00").
Proof.
  refine (proj2 (proj2 (proj2
            (get_preferences_by_category_complete "ui"
               (update_preference "2025-02-10 09:00:00" "ui" "theme" "dark" 1
                  (update_preference "2025-02-01 09:00:00" "ui" "font" "mono"
                     1 empty_store)) _))) "theme" "dark" 1
            "2025-02-10 09:00:00" _).
  - vm_compute. repeat constructor; simpl; intuition discriminate.
  - vm_compute. left. reflexivity.
Defined.

(** Two preferences of one category written at the same second come back
    by key, whichever was written first. *)
Example preferences_updated_together :
  map fst (get_preferences_by_category "ui"
             (update_preference "2025-02-10 09:00:00" "ui" "font" "mono" 1
                (update_preference "2025-02-10 09:00:00" "ui" "theme" "dark"
                   1 empty_store)))
  = ["font"; "theme"]
  /\ map fst (get_preferences_by_category "ui"
                (update_preference "2025-02-10 09:00:00" "ui" "theme" "dark"
                   1 (update_preference "2025-02-10 09:00:00" "ui" "font"
                        "mono" 1 empty_store)))
     = ["font"; "theme"].
Proof. vm_compute. split; reflexivity. Qed.

(** ** Semantic facts: write, read back, what a write leaves alone *)

(** X6.  A fact written is the fact read: after [remember_semantic] under a
    non-empty key, [recall_semantic] with that key returns a record with
    the value, the confidence and the time of the write, and an
    [access_count] one above the count the key had before the write. *)
Theorem remember_then_recall_semantic (now now' key value : string)
    (confidence : Q) (source : option Z) (s : store) :
  key <> "" ->
  fst (recall_semantic now' (Some key)
         (remember_semantic now key value confidence source s))
  = SemRecord key value confidence now (stored_access_count key s + 1)%Z.
Proof.
  intros Hk.
  pose proof (remember_semantic_row now key value confidence source s) as R.
  unfold recall_semantic.
  destruct key as [|c k]; [congruence|]. cbn [truthy_str].
  rewrite find_hd_filter, R. reflexivity.
Qed.

Lemma remember_then_recall_semantic_witness :
  fst (recall_semantic "2025-02-10 10:00:00" (Some "billing")
         (remember_semantic "2025-02-10 09:00:00" "billing" "net 30"
            (7 # 10) (Some 4%Z) Billing.billing_store))
  = SemRecord "billing" "net 30" (7 # 10) "2025-02-10 09:00:00" 1.
Proof.
  apply (remember_then_recall_semantic "2025-02-10 09:00:00"
           "2025-02-10 10:00:00" "billing" "net 30" (7 # 10) (Some 4%Z)
           Billing.billing_store).
  discriminate.
Defined.

Lemma key_filter_NoDup (f : semantic_row -> bool) (l : list semantic_row) :
  NoDup (map s_key l) -> NoDup (map s_key (filter f l)).
Proof.
  induction l as [|r l IH]; simpl; intros H; [constructor|].
  inversion H as [|x xs Hnotin Hnd]; subst.
  destruct (f r); simpl; [|auto].
  constructor; [|auto].
  intros Hin. apply Hnotin. apply in_map_iff in Hin.
  destruct Hin as (r' & E & Hr'). apply filter_In in Hr'.
  apply in_map_iff. exists r'. tauto.
Qed.

(** X7.  [remember_semantic] touches one key only: the rows under every
    other key are those that were there, the episodic table is untouched,
    and a table with one row per key stays a table with one row per key. *)
Theorem remember_semantic_frame (now key value : string) (confidence : Q)
    (source : option Z) (s : store) :
  let s' := remember_semantic now key value confidence source s in
  (forall key', key' <> key ->
      filter (fun r => String.eqb (s_key r) key') (semantic_memories s')
      = filter (fun r => String.eqb (s_key r) key') (semantic_memories s))
  /\ episodic_memories s' = episodic_memories s
  /\ user_preferences s' = user_preferences s
  /\ (NoDup (map s_key (semantic_memories s)) ->
      NoDup (map s_key (semantic_memories s'))).
Proof.
  intros s'. subst s'. unfold remember_semantic. simpl.
  split; [|split; [reflexivity|split; [reflexivity|]]].
  - intros key' Hne. rewrite filter_app, filter_filter. simpl.
    assert (E : String.eqb key key' = false)
      by (apply String.eqb_neq; congruence).
    rewrite E, app_nil_r. apply filter_ext. intros r.
    destruct (String.eqb (s_key r) key') eqn:E1; [|apply andb_false_r].
    apply String.eqb_eq in E1. subst key'.
    rewrite String.eqb_sym, E. reflexivity.
  - intros H. rewrite map_app. apply NoDup_app.
    + apply key_filter_NoDup, H.
    + simpl. repeat constructor. intros [].
    + intros k Hin [<-|[]]. apply in_map_iff in Hin.
      destruct Hin as (r & E & Hr). apply filter_In in Hr.
      destruct Hr as [_ Hr]. apply negb_true_iff, String.eqb_neq in Hr.
      simpl in E. congruence.
Qed.

Lemma remember_semantic_frame_witness :
  NoDup (map s_key (semantic_memories
                      (remember_semantic "2025-02-10 09:00:00" "name"
                         "Dallas Spohn" 1 None retention_store))).
Proof.
  apply (remember_semantic_frame "2025-02-10 09:00:00" "name"
           "Dallas Spohn" 1 None retention_store).
  vm_compute. repeat constructor; simpl; intuition discriminate.
Defined.

(** X8.  A read of semantic facts never loses or rewrites a fact: whatever
    the key, [recall_semantic] leaves the table with the same rows in the
    same order, each with its key, value, confidence and source, and with
    an [access_count] that did not decrease and grew by at most one. *)
Theorem recall_semantic_preserves_facts (now : string) (key : option string)
    (s : store) :
  Forall2 touched (semantic_memories s)
          (semantic_memories (snd (recall_semantic now key s)))
  /\ episodic_memories (snd (recall_semantic now key s))
     = episodic_memories s.
Proof.
  assert (Hrefl : forall l, Forall2 touched l l).
  { induction l; constructor; [|assumption].
    unfold touched. repeat split; lia. }
  unfold recall_semantic. destruct (truthy_str key) as [k|].
  - destruct (find _ (semantic_memories s)).
    + simpl. split; [|reflexivity].
      induction (semantic_memories s) as [|r l IH]; simpl; constructor;
        [|exact IH].
      destruct (String.eqb (s_key r) k); unfold touched; simpl;
        repeat split; lia.
    + simpl. auto.
  - simpl. auto.
Qed.

(** ** Consolidation: what it changes and what it writes *)

Lemma NoDup_map_In_eq {A B : Type} (f : A -> B) (l : list A) (a b : A) :
  NoDup (map f l) -> In a l -> In b l -> f a = f b -> a = b.
Proof.
  induction l as [|x l IH]; simpl; intros Hnd Ha Hb E; [destruct Ha|].
  inversion Hnd as [|y ys Hnotin Hnd']; subst.
  destruct Ha as [->|Ha], Hb as [->|Hb]; try reflexivity.
  - exfalso. apply Hnotin. rewrite E. now apply in_map.
  - exfalso. apply Hnotin. rewrite <- E. now apply in_map.
  - now apply IH.
Qed.

Lemma flag_visited_nil (r : episodic_row) : flag_visited [] r = r.
Proof. reflexivity. Qed.

(** The episodic table after the call: flagged at the selected ids when
    the call returns, as it was when the call raises. *)
Lemma consolidate_memories_episodic cutoff now (s : store) :
  let result := consolidate_memories cutoff now s in
  (fst result = Returned tt
   /\ episodic_memories (snd result)
      = map (flag_visited (map e_id (consolidation_candidates cutoff s)))
            (episodic_memories s))
  \/ (fst result = OperationalError "database is locked"
      /\ episodic_memories (snd result) = episodic_memories s).
Proof.
  intros result. subst result. rewrite consolidate_memories_cases.
  destruct (consolidation_candidates cutoff s) as [|c rest].
  - left. split; [reflexivity|]. simpl.
    symmetry. erewrite map_ext; [apply map_id|]. apply flag_visited_nil.
  - cbv zeta. destruct (existsb important rest); cbn [fst snd].
    + right. split; [reflexivity|]. apply first_write_tables.
    + left. split; [reflexivity|].
      rewrite commit_updates_episodic. f_equal. apply first_write_tables.
Qed.

(** The semantic table after the call: the table before it, with the fact
    of the first selected memory written when that memory is above the
    threshold. *)
Lemma consolidate_memories_semantic cutoff now (s : store) :
  semantic_memories (snd (consolidate_memories cutoff now s))
  = match consolidation_candidates cutoff s with
    | [] => semantic_memories s
    | c :: _ =>
        semantic_memories (if important c then remember_event now c s else s)
    end.
Proof.
  rewrite consolidate_memories_cases.
  destruct (consolidation_candidates cutoff s) as [|c rest]; [reflexivity|].
  cbv zeta. destruct (existsb important rest); cbn [snd]; [reflexivity|].
  apply commit_updates_other_tables.
Qed.

Lemma consolidate_memories_other_tables cutoff now (s : store) :
  let s' := snd (consolidate_memories cutoff now s) in
  user_preferences s' = user_preferences s
  /\ memory_associations s' = memory_associations s
  /\ media_memories s' = media_memories s
  /\ emotional_memories s' = emotional_memories s.
Proof.
  intros s'. subst s'. rewrite consolidate_memories_cases.
  destruct (consolidation_candidates cutoff s) as [|c rest]; [simpl; auto|].
  cbv zeta.
  destruct (first_write_tables now c s) as (_ & F1 & F2 & F3 & F4).
  destruct (existsb important rest); cbn [snd]; [auto|].
  destruct (commit_updates_other_tables (map e_id (c :: rest))
              (if important c then remember_event now c s else s))
    as (_ & C1 & C2 & C3 & C4).
  rewrite C1, C2, C3, C4. auto.
Qed.

(** X9.  Consolidation changes nothing in an episodic row but its flag, and
    the flag only from false to true: rows keep their place and content.
    When the call returns, every row older than the cut-off is flagged;
    when it raises, the episodic table is as it was.  With unique ids a
    row not older than the cut-off is left exactly as it was.  The
    preference, association, media and emotion tables are untouched. *)
Theorem consolidate_memories_only_flags (cutoff now : string) (s : store) :
  let result := consolidate_memories cutoff now s in
  let s' := snd result in
  Forall2 (fun r r' => r' = r \/ r' = set_consolidated r)
          (episodic_memories s) (episodic_memories s')
  /\ (fst result = Returned tt ->
      Forall (fun r' => e_consolidated r' = true
                        \/ String.ltb (e_timestamp r') cutoff = false)
             (episodic_memories s'))
  /\ (fst result <> Returned tt ->
      episodic_memories s' = episodic_memories s)
  /\ (NoDup (map e_id (episodic_memories s)) ->
      forall r, In r (episodic_memories s) ->
                String.ltb (e_timestamp r) cutoff = false ->
                In r (episodic_memories s'))
  /\ user_preferences s' = user_preferences s
  /\ memory_associations s' = memory_associations s
  /\ media_memories s' = media_memories s
  /\ emotional_memories s' = emotional_memories s.
Proof.
  intros result s'.
  assert (Hsame : forall l : list episodic_row,
             Forall2 (fun r r' => r' = r \/ r' = set_consolidated r) l l).
  { induction l; constructor; auto. }
  assert (Hflag : forall ids (l : list episodic_row),
             Forall2 (fun r r' => r' = r \/ r' = set_consolidated r) l
                     (map (flag_visited ids) l)).
  { intros ids l. induction l as [|r l IH]; simpl; constructor; [|exact IH].
    unfold flag_visited. destruct (id_in ids (e_id r)); auto. }
  destruct (consolidate_memories_episodic cutoff now s) as [[Hr E]|[Hr E]];
    fold result in Hr, E; fold s' in E.
  - split; [rewrite E; apply Hflag|].
    split; [|split; [intros H; congruence|split]].
    + intros _. apply Forall_forall. intros r' Hr'.
      destruct (e_consolidated r') eqn:Ec; [now left | right].
      destruct (String.ltb (e_timestamp r') cutoff) eqn:Et; [|reflexivity].
      exfalso.
      pose proof (flagged_leaves_no_candidate cutoff s s' E) as Hnone.
      assert (Hin : In r' (consolidation_candidates cutoff s')).
      { apply order_by_In, filter_In. split; [exact Hr'|].
        now rewrite Ec, Et. }
      rewrite Hnone in Hin. destruct Hin.
    + intros Hnd r Hin Ht. rewrite E.
      assert (Hid : id_in (map e_id (consolidation_candidates cutoff s))
                          (e_id r) = false).
      { destruct (id_in _ (e_id r)) eqn:Hi; [|reflexivity]. exfalso.
        apply id_in_spec, in_map_iff in Hi. destruct Hi as (c & Ec & Hc).
        apply order_by_In, filter_In in Hc. destruct Hc as [Hc Hp].
        assert (c = r) by (apply (NoDup_map_In_eq e_id _ c r Hnd); auto).
        subst c. apply andb_true_iff in Hp. destruct Hp as [_ Hp].
        congruence. }
      apply in_map_iff. exists r. split; [|exact Hin].
      unfold flag_visited. now rewrite Hid.
    + apply consolidate_memories_other_tables.
  - split; [rewrite E; apply Hsame|].
    split; [intros H; congruence|].
    split; [intros _; exact E|].
    split; [intros _ r Hin _; now rewrite E|].
    apply consolidate_memories_other_tables.
Qed.

Lemma consolidate_memories_only_flags_witness :
  In (mkEpisodic 4 "2025-02-08 10:00:00" "invoice overdue" "" (95 # 100) 0 0
                 (Some (Json.dumps ["billing"]))
                 "conversation|persona:Mo11y" false)
     (episodic_memories
        (snd (consolidate_memories (Billing.clock 30) "2025-02-10 12:00:00"
                                   Billing.billing_store)))
  /\ episodic_memories
       (snd (consolidate_memories (Billing.clock 30) "2025-02-10 12:00:00"
                                  two_important_store))
     = episodic_memories two_important_store.
Proof.
  split.
  - refine (proj1 (proj2 (proj2 (proj2
              (consolidate_memories_only_flags (Billing.clock 30)
                 "2025-02-10 12:00:00" Billing.billing_store)))) _ _ _ _).
    + vm_compute. repeat constructor; simpl; intuition discriminate.
    + vm_compute. tauto.
    + vm_compute. reflexivity.
  - refine (proj1 (proj2 (proj2
              (consolidate_memories_only_flags (Billing.clock 30)
                 "2025-02-10 12:00:00" two_important_store))) _).
    vm_compute. discriminate.
Defined.


Lemma remember_semantic_keeps_keys now key value confidence source
      (s : store) (k : string) :
  In k (map s_key (semantic_memories s)) ->
  In k (map s_key (semantic_memories
                     (remember_semantic now key value confidence source s))).
Proof.
  intros H. unfold remember_semantic. simpl. rewrite map_app.
  apply in_or_app.
  destruct (String.eqb k key) eqn:E.
  - apply String.eqb_eq in E. subst. right. now left.
  - left. apply in_map_iff in H. destruct H as (r & <- & Hr).
    apply in_map, filter_In. split; [exact Hr|].
    now rewrite E.
Qed.

Lemma importance_before_total (a b : episodic_row) :
  importance_before a b = true \/ importance_before b a = true.
Proof.
  unfold importance_before.
  destruct (Qle_bool (e_importance_score b) (e_importance_score a)) eqn:E;
    [now left | right].
  apply Qle_bool_iff. apply Qlt_le_weak, Qnot_le_lt. intros H.
  apply Qle_bool_iff in H. congruence.
Qed.







(** ** Retention: what is deleted, what is kept, what is counted *)

Lemma filter_split_length {A : Type} (f : A -> bool) (l : list A) :
  List.length l
  = (List.length (filter f l)
     + List.length (filter (fun x => negb (f x)) l))%nat.
Proof.
  induction l as [|x l IH]; simpl; [reflexivity|].
  destruct (f x); simpl; lia.
Qed.

Lemma removed_count {A : Type} (f : A -> bool) (l : list A) :
  Z.of_nat (List.length (filter f l))
  = (Z.of_nat (List.length l)
     - Z.of_nat (List.length (filter (fun x => negb (f x)) l)))%Z.
Proof. rewrite (filter_split_length f l). lia. Qed.

Lemma old_memory_ids_filter cutoff min_importance (s : store) :
  old_memory_ids cutoff min_importance s
  = map e_id (filter (old_and_unimportant cutoff min_importance)
                     (episodic_memories s)).
Proof. reflexivity. Qed.

(** Whether or not anything was selected, the tables after the call are the
    tables before it without the rows that refer to a selected id. *)
Lemma clear_old_memories_tables cutoff min_importance (s : store) :
  let ids := old_memory_ids cutoff min_importance s in
  let s' := snd (clear_old_memories cutoff min_importance s) in
  episodic_memories s'
  = filter (fun r => negb (id_in ids (e_id r))) (episodic_memories s)
  /\ semantic_memories s'
     = filter (fun r => negb (id_in_null ids (s_source_memory_id r)))
              (semantic_memories s)
  /\ emotional_memories s'
     = filter (fun r => negb (id_in_null ids (em_memory_id r)))
              (emotional_memories s)
  /\ memory_associations s'
     = filter (fun r => negb (id_in ids (a_memory_id_1 r)
                              || id_in ids (a_memory_id_2 r)))
              (memory_associations s)
  /\ media_memories s'
     = filter (fun r => negb (id_in ids (m_memory_id r))) (media_memories s)
  /\ user_preferences s' = user_preferences s.
Proof.
  intros ids s'. subst ids s'. unfold clear_old_memories.
  destruct (old_memory_ids cutoff min_importance s) as [|i ids].
  - simpl. repeat split; symmetry; apply filter_all; intros x;
      try reflexivity.
    + now destruct (s_source_memory_id x).
    + now destruct (em_memory_id x).
  - simpl. repeat split.
Qed.

Lemma selected_iff_old cutoff min_importance (s : store) (r : episodic_row) :
  NoDup (map e_id (episodic_memories s)) ->
  In r (episodic_memories s) ->
  id_in (old_memory_ids cutoff min_importance s) (e_id r)
  = old_and_unimportant cutoff min_importance r.
Proof.
  intros Hnd Hr.
  destruct (old_and_unimportant cutoff min_importance r) eqn:E.
  - apply id_in_spec. rewrite old_memory_ids_filter.
    apply in_map, filter_In. auto.
  - destruct (id_in _ (e_id r)) eqn:Hi; [|reflexivity]. exfalso.
    apply id_in_spec in Hi. rewrite old_memory_ids_filter in Hi.
    apply in_map_iff in Hi. destruct Hi as (c & Ec & Hc).
    apply filter_In in Hc. destruct Hc as [Hc Hp].
    assert (c = r) by (apply (NoDup_map_In_eq e_id _ c r Hnd); auto).
    subst c. congruence.
Qed.

(** X11.  With unique ids [clear_old_memories] deletes exactly the episodic
    rows that are both older than the cut-off and below the importance
    threshold: every other row stays as it was.  Preferences are never
    touched and a semantic fact without source memory is never deleted. *)
Theorem clear_old_memories_exact (cutoff : string) (min_importance : Q)
    (s : store) :
  NoDup (map e_id (episodic_memories s)) ->
  let s' := snd (clear_old_memories cutoff min_importance s) in
  (forall r, In r (episodic_memories s') <->
             In r (episodic_memories s)
             /\ ~ (String.ltb (e_timestamp r) cutoff = true
                   /\ (e_importance_score r < min_importance)%Q))
  /\ user_preferences s' = user_preferences s
  /\ (forall f, In f (semantic_memories s) ->
                s_source_memory_id f = None ->
                In f (semantic_memories s')).
Proof.
  intros Hnd s'.
  destruct (clear_old_memories_tables cutoff min_importance s)
    as (He & Hs & _ & _ & _ & Hp).
  fold s' in He, Hs, Hp.
  split; [|split; [exact Hp|]].
  - intros r. rewrite He, filter_In.
    assert (Hold : forall r,
               old_and_unimportant cutoff min_importance r = true <->
               String.ltb (e_timestamp r) cutoff = true
               /\ (e_importance_score r < min_importance)%Q).
    { intros x. unfold old_and_unimportant.
      rewrite andb_true_iff, negb_true_iff. split; intros [Ht Hi].
      - split; [exact Ht|]. apply Qnot_le_lt. intros Hle.
        apply Qle_bool_iff in Hle. congruence.
      - split; [exact Ht|].
        destruct (Qle_bool min_importance (e_importance_score x)) eqn:Eq;
          [|reflexivity].
        apply Qle_bool_iff in Eq. exfalso. exact (Qlt_not_le _ _ Hi Eq). }
    split.
    + intros [Hr Hn]. split; [exact Hr|].
      rewrite (selected_iff_old _ _ _ _ Hnd Hr) in Hn.
      apply negb_true_iff in Hn. rewrite <- Hold. congruence.
    + intros [Hr Hn]. split; [exact Hr|].
      rewrite (selected_iff_old _ _ _ _ Hnd Hr).
      apply negb_true_iff.
      destruct (old_and_unimportant cutoff min_importance r) eqn:E;
        [|reflexivity].
      apply Hold in E. tauto.
  - intros f Hf Hsrc. rewrite Hs. apply filter_In. split; [exact Hf|].
    now rewrite Hsrc.
Qed.

Lemma clear_old_memories_exact_witness :
  In (mkSemantic 2 "name" "Dallas" 1 None "2024-01-05 08:00:00" 1
                 "2024-01-05 08:00:00")
     (semantic_memories
        (snd (clear_old_memories "2024-12-01T00:00:00.000000" (3 # 10)
                                 retention_store))).
Proof.
  refine (proj2 (proj2 (clear_old_memories_exact
                          "2024-12-01T00:00:00.000000" (3 # 10)
                          retention_store _)) _ _ _).
  - vm_compute. repeat constructor; simpl; intuition discriminate.
  - vm_compute. tauto.
  - reflexivity.
Defined.

(** X12.  The counts [clear_old_memories] returns when it selected
    something are the numbers of rows it removed from the association,
    media, emotion and semantic tables, and, with unique ids, from the
    episodic table.  When it selected nothing the dictionary it returns
    has no entry for the associations. *)
Theorem clear_old_memories_counts (cutoff : string) (min_importance : Q)
    (s : store) :
  let counts := fst (clear_old_memories cutoff min_importance s) in
  let s' := snd (clear_old_memories cutoff min_importance s) in
  let removed {A : Type} (table : store -> list A) : Z :=
    (Z.of_nat (List.length (table s)) - Z.of_nat (List.length (table s')))%Z in
  (old_memory_ids cutoff min_importance s = [] ->
   dict_get "associations" counts = None)
  /\ (old_memory_ids cutoff min_importance s <> [] ->
      dict_get "associations" counts = Some (removed memory_associations)
      /\ dict_get "media" counts = Some (removed media_memories)
      /\ dict_get "emotional" counts = Some (removed emotional_memories)
      /\ dict_get "semantic" counts = Some (removed semantic_memories)
      /\ (NoDup (map e_id (episodic_memories s)) ->
          dict_get "episodic" counts = Some (removed episodic_memories))).
Proof.
  intros counts s' removed.
  destruct (clear_old_memories_tables cutoff min_importance s)
    as (He & Hs & Hm & Ha & Hd & _).
  fold s' in He, Hs, Hm, Ha, Hd.
  subst removed. cbv beta. rewrite He, Hs, Hm, Ha, Hd.
  assert (Hep : NoDup (map e_id (episodic_memories s)) ->
                Z.of_nat (List.length (old_memory_ids cutoff min_importance s))
                = (Z.of_nat (List.length (episodic_memories s))
                   - Z.of_nat
                       (List.length
                          (filter (fun r =>
                                     negb (id_in (old_memory_ids cutoff
                                                    min_importance s)
                                                 (e_id r)))
                                  (episodic_memories s))))%Z).
  { intros Hnd.
    rewrite <- (removed_count
                  (fun r => id_in (old_memory_ids cutoff min_importance s)
                                  (e_id r))).
    f_equal. rewrite old_memory_ids_filter at 1. rewrite length_map.
    f_equal. apply filter_ext_in. intros r Hr.
    symmetry. now apply selected_iff_old. }
  subst counts. unfold clear_old_memories.
  destruct (old_memory_ids cutoff min_importance s) as [|i ids] eqn:Eids.
  - split; [reflexivity | congruence].
  - split; [discriminate|]. intros _. cbn [fst]. unfold dict_get, count_of.
    simpl find. cbn [option_map snd].
    split; [|split; [|split; [|split]]].
    + f_equal.
      apply (removed_count (fun r => id_in (i :: ids) (a_memory_id_1 r)
                                     || id_in (i :: ids) (a_memory_id_2 r))).
    + f_equal.
      apply (removed_count (fun r => id_in (i :: ids) (m_memory_id r))).
    + f_equal.
      apply (removed_count
               (fun r => id_in_null (i :: ids) (em_memory_id r))).
    + f_equal.
      apply (removed_count
               (fun r => id_in_null (i :: ids) (s_source_memory_id r))).
    + intros Hnd. f_equal. apply (Hep Hnd).
Qed.

Lemma clear_old_memories_counts_witness :
  dict_get "associations"
    (fst (clear_old_memories "2023-01-01T00:00:00.000000" (3 # 10)
                             retention_store)) = None
  /\ dict_get "episodic"
       (fst (clear_old_memories "2024-12-01T00:00:00.000000" (3 # 10)
                                retention_store)) = Some 1%Z.
Proof.
  split.
  - apply (clear_old_memories_counts "2023-01-01T00:00:00.000000" (3 # 10)
             retention_store).
    vm_compute. reflexivity.
  - refine (proj2 (proj2 (proj2 (proj2
              (proj2 (clear_old_memories_counts
                        "2024-12-01T00:00:00.000000" (3 # 10)
                        retention_store) _)))) _).
    + vm_compute. discriminate.
    + vm_compute. repeat constructor; simpl; intuition discriminate.
Defined.

(** X13.  A retention sweep leaves nothing for the same sweep to do: run
    again with the same cut-off and threshold, [clear_old_memories]
    selects no row, returns its all-zero dictionary and changes nothing. *)
Theorem clear_old_memories_twice (cutoff : string) (min_importance : Q)
    (s : store) :
  let s' := snd (clear_old_memories cutoff min_importance s) in
  old_memory_ids cutoff min_importance s' = []
  /\ clear_old_memories cutoff min_importance s'
     = ([("episodic", 0); ("semantic", 0); ("emotional", 0);
         ("media", 0)]%Z, s').
Proof.
  intros s'.
  assert (H : old_memory_ids cutoff min_importance s' = []).
  { destruct (clear_old_memories_tables cutoff min_importance s)
      as (He & _). fold s' in He.
    rewrite old_memory_ids_filter, He, filter_filter, filter_none;
      [reflexivity|].
    intros r Hr.
    destruct (old_and_unimportant cutoff min_importance r) eqn:E;
      [|apply andb_false_r].
    rewrite andb_true_r. apply negb_false_iff, id_in_spec.
    rewrite old_memory_ids_filter. apply in_map, filter_In. auto. }
  split; [exact H|].
  unfold clear_old_memories. rewrite H. reflexivity.
Qed.

(** ** The related-memory lookup *)

Lemma related_query_bounds memory_id limit matching pf (s : store) :
  (0 <= limit)%Z ->
  let l := related_query memory_id limit matching pf s in
  (List.length l <= Z.to_nat limit)%nat
  /\ Sorted (fun a b => (r_importance_score b <= r_importance_score a)%Q) l
  /\ forall d, In d l ->
       exists r, In r (episodic_memories s) /\ d = to_related r
                 /\ e_id r <> memory_id /\ matching r = true
                 /\ forallb (fun c => c r) pf = true.
Proof.
  intros Hl l. subst l. unfold related_query.
  rewrite sql_limit_firstn by exact Hl.
  split; [|split].
  - rewrite length_map. apply firstn_le_length.
  - apply (Sorted_map (fun a b => importance_before a b = true)).
    + intros a b H. apply Qle_bool_iff. exact H.
    + apply firstn_sorted, order_by_sorted, importance_before_total.
  - intros d Hd. apply in_map_iff in Hd. destruct Hd as (r & <- & Hr).
    apply firstn_subset, order_by_In, filter_In in Hr.
    destruct Hr as [Hin Hw]. exists r.
    unfold sql_where in Hw. rewrite forallb_app in Hw. simpl in Hw.
    apply andb_true_iff in Hw. destruct Hw as [Hw Hpf].
    apply andb_true_iff in Hw. destruct Hw as [Hne Hm].
    rewrite andb_true_r in Hm.
    apply negb_true_iff, Z.eqb_neq in Hne. auto.
Qed.

Section RelatedFacts.
Variable json_loads : string -> list string.

(** X14.  When [find_related_memories] returns, with a non-negative limit,
    it returns at most [limit] memories, most important first; each is a
    stored memory other than the target; and when a non-empty persona was
    passed each one carries a tag the pattern [%persona:<name>%]
    matches. *)
Theorem find_related_memories_bounds (memory_id limit : Z)
    (persona : option string) (s : store) (l : list related_dict) :
  (0 <= limit)%Z ->
  find_related_memories json_loads memory_id limit persona s = Returned l ->
  (List.length l <= Z.to_nat limit)%nat
  /\ Sorted (fun a b => (r_importance_score b <= r_importance_score a)%Q) l
  /\ forall d, In d l ->
       exists r, In r (episodic_memories s) /\ d = to_related r
                 /\ e_id r <> memory_id
                 /\ (forall p, persona = Some p -> p <> "" ->
                               persona_like p r = true).
Proof.
  intros Hl. unfold find_related_memories.
  destruct (filter _ (episodic_memories s)) as [|target rest].
  { intros [= <-]. simpl. split; [lia|]. split; [constructor|].
    intros d []. }
  set (pf := match truthy_str _ with Some p => _ | None => _ end).
  assert (Hpf : forall r p, persona = Some p -> p <> "" ->
                            forallb (fun c => c r) pf = true ->
                            persona_like p r = true).
  { intros r p -> Hne. subst pf. unfold related_persona.
    destruct p as [|c p]; [congruence|]. simpl.
    now rewrite andb_true_r. }
  assert (Hq : forall matching,
             (List.length (related_query memory_id limit matching pf s)
              <= Z.to_nat limit)%nat
             /\ Sorted (fun a b => (r_importance_score b
                                    <= r_importance_score a)%Q)
                       (related_query memory_id limit matching pf s)
             /\ forall d, In d (related_query memory_id limit matching pf s) ->
                  exists r, In r (episodic_memories s) /\ d = to_related r
                            /\ e_id r <> memory_id
                            /\ (forall p, persona = Some p -> p <> "" ->
                                          persona_like p r = true)).
  { intros matching.
    destruct (related_query_bounds memory_id limit matching pf s Hl)
      as (H1 & H2 & H3).
    split; [exact H1|]. split; [exact H2|].
    intros d Hd. destruct (H3 d Hd) as (r & Hr & E & Hne & _ & Hf).
    exists r. repeat split; try assumption.
    intros p Hp Hn. now apply (Hpf r p). }
  destruct (target_tags_of json_loads target) as [|t ts].
  - destruct (target_keywords target) as [|k ks]; [discriminate|].
    intros [= <-]. apply Hq.
  - intros [= <-]. apply Hq.
Qed.

(** X15.  [find_related_memories] raises exactly when the target is stored,
    has no tags and has no word in its content: the keyword query is then
    built with an empty list of conditions.  In every other case it
    returns a list. *)
Theorem find_related_memories_raises_iff (memory_id limit : Z)
    (persona : option string) (s : store) :
  (exists message,
      find_related_memories json_loads memory_id limit persona s
      = OperationalError message)
  <-> exists target rest,
        filter (fun r => (e_id r =? memory_id)%Z) (episodic_memories s)
        = target :: rest
        /\ target_tags_of json_loads target = []
        /\ py_words (py_lower (e_content target)) = [].
Proof.
  unfold find_related_memories.
  destruct (filter _ (episodic_memories s)) as [|target rest].
  - split; [intros [m H]; discriminate H|].
    intros (t & r & H & _). discriminate H.
  - assert (Hk : target_keywords target = []
                 <-> py_words (py_lower (e_content target)) = []).
    { unfold target_keywords, py_set. split.
      - intros H. apply nodup_nil_inv in H.
        destruct (py_words _) as [|w ws]; [reflexivity | discriminate H].
      - intros ->. reflexivity. }
    destruct (target_tags_of json_loads target) as [|t ts] eqn:Et.
    + destruct (target_keywords target) as [|k ks] eqn:Ek.
      * split; [|intros _; eexists; reflexivity].
        intros _. exists target, rest. repeat split; try assumption.
        now apply Hk.
      * split; [intros [m H]; discriminate H|].
        intros (t & r & [= <- <-] & _ & Hw).
        apply Hk in Hw. discriminate Hw.
    + split; [intros [m H]; discriminate H|].
      intros (t' & r & [= <- <-] & Ht' & _). congruence.
Qed.
End RelatedFacts.

Lemma find_related_memories_bounds_witness :
  (List.length [mkRelatedDict 2 "invoice overdue" (6 # 10)] <= 5)%nat
  /\ Sorted (fun a b => (r_importance_score b <= r_importance_score a)%Q)
            [mkRelatedDict 2 "invoice overdue" (6 # 10)]
  /\ forall d, In d [mkRelatedDict 2 "invoice overdue" (6 # 10)] ->
       exists r, In r (episodic_memories Scenario.alex_then_mercer)
                 /\ d = to_related r /\ e_id r <> 1%Z
                 /\ (forall p, Some "Alex" = Some p -> p <> "" ->
                               persona_like p r = true).
Proof.
  apply (find_related_memories_bounds Json.loads 1 5 (Some "Alex")
           Scenario.alex_then_mercer
           [mkRelatedDict 2 "invoice overdue" (6 # 10)]).
  - lia.
  - vm_compute. reflexivity.
Defined.

(** A memory without tags whose content is blank: asking for its relatives
    raises. *)
Example find_related_memories_blank_content :
  let s := snd (remember_episodic Json.dumps "2025-02-10 09:00:00" "   " ""
                  (1 # 2) 0 0 [] "conversation|persona:Mo11y"
                  Billing.billing_store) in
  find_related_memories Json.loads 6 2 (Some "Mo11y") s
  = OperationalError "syntax error near )".
Proof. vm_compute. reflexivity. Qed.

(** ** Reading the persona off a tag *)

Lemma append_nil_r (s : string) : (s ++ "")%string = s.
Proof. induction s as [|c s IH]; simpl; [reflexivity | now rewrite IH]. Qed.

Lemma append_char_assoc (a : string) (c : ascii) (b : string) :
  ((a ++ String c "") ++ b)%string = (a ++ String c b)%string.
Proof. induction a as [|d a IH]; simpl; [reflexivity | now rewrite IH]. Qed.

Lemma prefix_append (x rest : string) : prefix x (x ++ rest) = true.
Proof.
  induction x as [|c x IH]; simpl.
  - destruct rest; reflexivity.
  - destruct (ascii_dec c c); [exact IH | congruence].
Qed.

Lemma contains_unfold (needle haystack : string) :
  contains needle haystack
  = (prefix needle haystack
     || match haystack with
        | EmptyString => false
        | String _ h' => contains needle h'
        end).
Proof. destruct haystack; reflexivity. Qed.

Lemma contains_append (needle before rest : string) :
  contains needle (before ++ needle ++ rest) = true.
Proof.
  induction before as [|c b IH]; simpl append.
  - rewrite contains_unfold, prefix_append. reflexivity.
  - rewrite contains_unfold, IH. apply orb_true_r.
Qed.

Lemma split_aux_hit (sep cur : string) (c : ascii) (s : string) :
  prefix sep (String c s) = true ->
  split_aux sep 0 cur (String c s)
  = cur :: split_aux sep (String.length sep - 1) "" s.
Proof. intros H. cbn [split_aux]. now rewrite H. Qed.

Lemma split_aux_miss (sep cur : string) (c : ascii) (s : string) :
  prefix sep (String c s) = false ->
  split_aux sep 0 cur (String c s)
  = split_aux sep 0 (cur ++ String c "") s.
Proof. intros H. cbn [split_aux]. now rewrite H. Qed.

(** A text that does not hold the separator is not split. *)
Lemma split_aux_no_sep (sep cur s : string) :
  contains sep s = false -> split_aux sep 0 cur s = [(cur ++ s)%string].
Proof.
  revert cur. induction s as [|c s IH]; intros cur H.
  - simpl. now rewrite append_nil_r.
  - rewrite contains_unfold in H. apply orb_false_iff in H.
    destruct H as [Hp Hc].
    rewrite split_aux_miss by exact Hp.
    rewrite IH by exact Hc. now rewrite append_char_assoc.
Qed.

(** X16.  The persona [find_related_memories] derives from a tag written by
    [store_memory] is the persona the tag was written for, whenever the
    name holds neither [persona:] nor a vertical bar and has no white space
    at either end. *)
Theorem related_persona_reads_tag (name : string) :
  contains "persona:" name = false ->
  contains "|" name = false ->
  py_strip name = name ->
  related_persona None ("conversation|persona:" ++ name) = Some name.
Proof.
  intros Hp Hb Hs. unfold related_persona. cbn [truthy_str].
  assert (Hc : contains "persona:" ("conversation|persona:" ++ name) = true)
    by apply (contains_append "persona:" "conversation|" name).
  assert (Hsplit : py_split "persona:" ("conversation|persona:" ++ name)
                   = ["conversation|"; name]).
  { unfold py_split. cbn [append].
    do 13 (rewrite split_aux_miss by reflexivity).
    rewrite split_aux_hit by apply (prefix_append "persona:" name).
    cbn [String.length Nat.sub split_aux append].
    rewrite split_aux_no_sep by exact Hp. reflexivity. }
  rewrite Hc, Hsplit. cbn [last append].
  unfold py_split. rewrite split_aux_no_sep by exact Hb.
  cbn [hd append]. now rewrite Hs.
Qed.

Lemma related_persona_reads_tag_witness :
  related_persona None ("conversation|persona:" ++ "Alex Mercer")
  = Some "Alex Mercer".
Proof.
  apply (related_persona_reads_tag "Alex Mercer"); reflexivity.
Defined.

(** ** The merge of the two passes, on any two lists *)

Lemma NoDup_map_filter {A B : Type} (f : A -> B) (g : A -> bool)
      (l : list A) :
  NoDup (map f l) -> NoDup (map f (filter g l)).
Proof.
  induction l as [|x l IH]; simpl; intros H; [constructor|].
  inversion H as [|y ys Hnotin Hnd]; subst.
  destruct (g x); simpl; [|auto].
  constructor; [|auto].
  intros Hin. apply Hnotin. apply in_map_iff in Hin.
  destruct Hin as (x' & E & Hx'). apply filter_In in Hx'.
  apply in_map_iff. exists x'. tauto.
Qed.

Lemma filter_all_in {A : Type} (f : A -> bool) (l : list A) :
  (forall x, In x l -> f x = true) -> filter f l = l.
Proof.
  induction l as [|x l IH]; simpl; intros H; [reflexivity|].
  rewrite (H x (or_introl eq_refl)). f_equal. apply IH. auto.
Qed.

Lemma drop_duplicates_In (l : list episodic_dict) (d : episodic_dict) :
  In d (spec_drop_duplicates l) -> In d l.
Proof.
  revert d. induction l as [|x l IH]; simpl; intros d H; [exact H|].
  destruct H as [H|H]; [now left | right].
  apply filter_In in H. apply IH, H.
Qed.

Lemma drop_duplicates_NoDup (l : list episodic_dict) :
  NoDup (map d_id (spec_drop_duplicates l)).
Proof.
  induction l as [|x l IH]; simpl; constructor.
  - intros Hin. apply in_map_iff in Hin. destruct Hin as (y & E & Hy).
    apply filter_In in Hy. destruct Hy as [_ Hy].
    apply negb_true_iff, Z.eqb_neq in Hy. congruence.
  - apply NoDup_map_filter, IH.
Qed.

Lemma drop_duplicates_ids (l : list episodic_dict) (d : episodic_dict) :
  In d l -> In (d_id d) (map d_id (spec_drop_duplicates l)).
Proof.
  induction l as [|x l IH]; simpl; intros H; [destruct H|].
  destruct (d_id d =? d_id x)%Z eqn:E.
  - apply Z.eqb_eq in E. left. congruence.
  - destruct H as [->|H]; [rewrite Z.eqb_refl in E; discriminate|].
    right. apply IH in H. apply in_map_iff in H.
    destruct H as (y & Ey & Hy). apply in_map_iff. exists y.
    split; [exact Ey|]. apply filter_In. split; [exact Hy|].
    rewrite Ey, E. reflexivity.
Qed.

Lemma drop_duplicates_length (l : list episodic_dict) :
  (List.length (spec_drop_duplicates l) <= List.length l)%nat.
Proof.
  induction l as [|x l IH]; simpl; [lia|].
  pose proof (filter_length_bound
                (fun y => negb (d_id y =? d_id x)%Z)
                (spec_drop_duplicates l)).
  lia.
Qed.

(** A first list with distinct ids passes through the merge unchanged, in
    front of what the second list adds. *)
Lemma drop_duplicates_prefix (a b : list episodic_dict) :
  NoDup (map d_id a) ->
  spec_drop_duplicates (a ++ b)
  = a ++ filter (fun y => negb (id_in (map d_id a) (d_id y)))
                (spec_drop_duplicates b).
Proof.
  induction a as [|x a IH]; simpl; intros H.
  - symmetry. apply filter_all. reflexivity.
  - inversion H as [|y ys Hnotin Hnd]; subst.
    rewrite (IH Hnd), filter_app, filter_filter. f_equal. f_equal.
    + apply filter_all_in. intros y Hy. apply negb_true_iff, Z.eqb_neq.
      intros E. apply Hnotin. rewrite <- E. now apply in_map.
    + apply filter_ext. intros y. unfold id_in. simpl.
      rewrite negb_orb. apply andb_comm.
Qed.

(** X17.  Whatever two lists they are given, the merge loop and slice of
    [retrieve_memories] return at most five memories, no two with the same
    id, each taken from one of the lists.  When the topic memories have
    distinct ids and are at most five they open the result in their own
    order; and when both lists together hold at most five memories every
    id given appears in the result. *)
Theorem combine_memories_distinct (topic_memories recent_memories
                                     : list episodic_dict) :
  let result := combine_memories topic_memories recent_memories in
  NoDup (map d_id result)
  /\ (List.length result <= 5)%nat
  /\ (forall d, In d result -> In d topic_memories \/ In d recent_memories)
  /\ (NoDup (map d_id topic_memories) ->
      (List.length topic_memories <= 5)%nat ->
      firstn (List.length topic_memories) result = topic_memories)
  /\ ((List.length (topic_memories ++ recent_memories) <= 5)%nat ->
      forall d, In d (topic_memories ++ recent_memories) ->
                In (d_id d) (map d_id result)).
Proof.
  intros result. subst result. rewrite combine_memories_merge.
  unfold spec_merge.
  set (all := spec_drop_duplicates (topic_memories ++ recent_memories)).
  split; [|split; [|split; [|split]]].
  - rewrite <- firstn_map.
    pose proof (drop_duplicates_NoDup (topic_memories ++ recent_memories))
      as H. fold all in H.
    rewrite <- (firstn_skipn 5 (map d_id all)) in H.
    apply NoDup_app_remove_r in H. exact H.
  - apply firstn_le_length.
  - intros d Hd. apply firstn_subset in Hd.
    apply drop_duplicates_In in Hd. now apply in_app_or.
  - intros Hnd Hlen. subst all.
    rewrite (drop_duplicates_prefix _ _ Hnd).
    rewrite firstn_firstn, Nat.min_l by exact Hlen.
    rewrite firstn_app, firstn_all, Nat.sub_diag. simpl.
    apply app_nil_r.
  - intros Hlen d Hd.
    rewrite firstn_whole.
    + now apply drop_duplicates_ids.
    + etransitivity; [apply drop_duplicates_length | exact Hlen].
Qed.

Lemma combine_memories_distinct_witness :
  let topic :=
    recall_episodic Json.loads Billing.clock 3 (3 # 10) ["billing"]
                    (Some 30%Z) (Some "Mo11y") Billing.billing_store in
  let recent :=
    recall_episodic Json.loads Billing.clock 2 (5 # 10) [] (Some 7%Z)
                    (Some "Mo11y") Billing.billing_store in
  firstn (List.length topic) (combine_memories topic recent) = topic.
Proof.
  refine (proj1 (proj2 (proj2 (proj2
            (combine_memories_distinct
               (recall_episodic Json.loads Billing.clock 3 (3 # 10)
                  ["billing"] (Some 30%Z) (Some "Mo11y")
                  Billing.billing_store)
               (recall_episodic Json.loads Billing.clock 2 (5 # 10) []
                  (Some 7%Z) (Some "Mo11y") Billing.billing_store))))) _ _).
  - vm_compute. repeat constructor; simpl; intuition discriminate.
  - vm_compute. lia.
Defined.

(** ** Keys that stay unique *)

Lemma flag_visited_id (ids : list Z) (r : episodic_row) :
  e_id (flag_visited ids r) = e_id r.
Proof. unfold flag_visited. destruct (id_in ids (e_id r)); reflexivity. Qed.

(** X18.  The operations that write the episodic table keep its ids
    unique: on a table without two rows of one id, [remember_episodic],
    [consolidate_memories] and [clear_old_memories] each leave a table
    without two rows of one id. *)
Theorem episodic_ids_stay_unique (json_dumps : list string -> string)
    (now content context : string) (importance valence arousal : Q)
    (tags : list string) (relationship_context cutoff : string)
    (min_importance : Q) (s : store) :
  NoDup (map e_id (episodic_memories s)) ->
  NoDup (map e_id
           (episodic_memories
              (snd (remember_episodic json_dumps now content context
                      importance valence arousal tags relationship_context
                      s))))
  /\ NoDup (map e_id
              (episodic_memories (snd (consolidate_memories cutoff now s))))
  /\ NoDup (map e_id
              (episodic_memories
                 (snd (clear_old_memories cutoff min_importance s)))).
Proof.
  intros H. split; [|split].
  - unfold remember_episodic. simpl. rewrite map_app. apply NoDup_app.
    + exact H.
    + simpl. repeat constructor. intros [].
    + intros i Hi [<-|[]].
      pose proof (next_rowid_fresh (episodic_seq s)
                    (map e_id (episodic_memories s))) as F.
      rewrite Forall_forall in F. specialize (F _ Hi). simpl in F. lia.
  - destruct (consolidate_memories_episodic cutoff now s) as [[_ E]|[_ E]];
      rewrite E; [|exact H].
    rewrite map_map.
    erewrite map_ext; [exact H|]. intros r. apply flag_visited_id.
  - destruct (clear_old_memories_tables cutoff min_importance s) as (E & _).
    rewrite E. apply NoDup_map_filter, H.
Qed.

Lemma episodic_ids_stay_unique_witness :
  NoDup (map e_id
           (episodic_memories
              (snd (clear_old_memories "2024-12-01T00:00:00.000000" (3 # 10)
                                       retention_store)))).
Proof.
  refine (proj2 (proj2
            (episodic_ids_stay_unique Json.dumps "2025-02-10 09:00:00"
               "" "" 0 0 0 [] "" "2024-12-01T00:00:00.000000" (3 # 10)
               retention_store _))).
  vm_compute. repeat constructor; simpl; intuition discriminate.
Defined.

Lemma remember_semantic_keys_unique now key value confidence source
      (s : store) :
  NoDup (map s_key (semantic_memories s)) ->
  NoDup (map s_key
           (semantic_memories
              (remember_semantic now key value confidence source s))).
Proof.
  intros H. unfold remember_semantic. simpl. rewrite map_app.
  apply NoDup_app.
  - apply NoDup_map_filter, H.
  - simpl. repeat constructor. intros [].
  - intros k Hin [<-|[]]. apply in_map_iff in Hin.
    destruct Hin as (r & E & Hr). apply filter_In in Hr.
    destruct Hr as [_ Hr]. apply negb_true_iff, String.eqb_neq in Hr.
    simpl in E. congruence.
Qed.

(** X19.  The operations that write the semantic table keep one row per
    key: on a table without two facts under one key, [remember_semantic],
    [recall_semantic], [consolidate_memories] and [clear_old_memories]
    each leave a table without two facts under one key. *)
Theorem semantic_keys_stay_unique (now key value : string) (confidence : Q)
    (source : option Z) (read_key : option string) (cutoff : string)
    (min_importance : Q) (s : store) :
  NoDup (map s_key (semantic_memories s)) ->
  NoDup (map s_key
           (semantic_memories
              (remember_semantic now key value confidence source s)))
  /\ NoDup (map s_key
              (semantic_memories (snd (recall_semantic now read_key s))))
  /\ NoDup (map s_key
              (semantic_memories (snd (consolidate_memories cutoff now s))))
  /\ NoDup (map s_key
              (semantic_memories
                 (snd (clear_old_memories cutoff min_importance s)))).
Proof.
  intros H. split; [|split; [|split]].
  - now apply remember_semantic_keys_unique.
  - unfold recall_semantic. destruct (truthy_str read_key) as [k|];
      [|exact H].
    destruct (find _ (semantic_memories s)); [|exact H].
    simpl. rewrite map_map. erewrite map_ext; [exact H|].
    intros r. simpl. destruct (String.eqb (s_key r) k); reflexivity.
  - rewrite consolidate_memories_semantic.
    destruct (consolidation_candidates cutoff s) as [|c rest]; [exact H|].
    destruct (important c); [|exact H].
    now apply remember_semantic_keys_unique.
  - destruct (clear_old_memories_tables cutoff min_importance s)
      as (_ & E & _).
    rewrite E. apply NoDup_map_filter, H.
Qed.

Lemma semantic_keys_stay_unique_witness :
  NoDup (map s_key
           (semantic_memories
              (snd (consolidate_memories (Billing.clock 30)
                      "2025-02-10 12:00:00" Billing.billing_store)))).
Proof.
  refine (proj1 (proj2 (proj2
            (semantic_keys_stay_unique "2025-02-10 12:00:00" "k" "v" 1 None
               None (Billing.clock 30) (3 # 10) Billing.billing_store _)))).
  vm_compute. constructor.
Defined.

(** ** The importance the agent computes *)

(** X20.  [_calculate_importance] always yields a value between 0.5 and 1:
    whatever the sentiment and the length of the input, the importance
    [store_memory] passes to [remember_episodic] is at least the base 0.5
    and at most 1. *)
Theorem calculate_importance_bounds (has_question : bool)
    (user_sentiment : option Q) (user_input : string) :
  (1 # 2 <= calculate_importance has_question user_sentiment user_input
   <= 1)%Q.
Proof.
  unfold calculate_importance.
  set (v := match user_sentiment with Some v => v | None => 0 end).
  pose proof (Qabs_nonneg v) as Habs.
  set (a := Qabs v) in *.
  destruct has_question; destruct (100 <? String.length user_input)%nat;
    match goal with
    | |- (_ <= Qmin 1 ?x <= _)%Q =>
        destruct (Q.min_spec 1 x) as [[Hlt E]|[Hle E]]; rewrite E
    end; lra.
Qed.

(** ** Timestamps against cut-off dates *)

Lemma compare_append_same (d a b : string) :
  String.compare (d ++ a) (d ++ b) = String.compare a b.
Proof.
  induction d as [|c d IH]; simpl; [reflexivity|].
  assert (E : Ascii.compare c c = Eq)
    by (unfold Ascii.compare; apply N.compare_refl).
  rewrite E. exact IH.
Qed.

(** A stored timestamp and a cut-off of the same day: the timestamp is the
    smaller text, whatever the two times of day. *)
Lemma same_day_before_cutoff (date time time' : string) :
  String.ltb (current_timestamp date time) (isoformat date time') = true
  /\ String.leb (isoformat date time') (current_timestamp date time) = false.
Proof.
  unfold String.ltb, String.leb, current_timestamp, isoformat.
  rewrite (String.compare_antisym (date ++ " " ++ time)
                                  (date ++ "T" ++ time')).
  rewrite compare_append_same. simpl. split; reflexivity.
Qed.

Section CutoffDay.
Variable json_loads : string -> list string.
Variable cutoff_of : Z -> string.

(** X21.  Timestamps and cut-off dates are compared as text, and on the
    day of the cut-off the comparison does not look at the time of day: a
    memory stamped on that day counts as older than the cut-off.  So a
    recall with [days_back] returns no memory stamped on the cut-off's
    day, and consolidation selects every unconsolidated memory stamped on
    it. *)
Theorem cutoff_day_counts_as_older (date time : string) (limit : Z)
    (min_importance : Q) (tags : list string) (days : Z)
    (persona : option string) (s : store) :
  days <> 0%Z ->
  cutoff_of days = isoformat date time ->
  (forall d time',
      In d (recall_episodic json_loads cutoff_of limit min_importance tags
                            (Some days) persona s) ->
      d_timestamp d <> current_timestamp date time')
  /\ (forall r time',
         In r (episodic_memories s) ->
         e_consolidated r = false ->
         e_timestamp r = current_timestamp date time' ->
         In r (consolidation_candidates (cutoff_of days) s)).
Proof.
  intros Hd Hc. split.
  - intros d time' Hin Ets. unfold recall_episodic, recall_rows in Hin.
    apply in_map_iff in Hin. destruct Hin as (r & <- & Hr).
    apply sql_limit_In, order_by_In, filter_In in Hr.
    destruct Hr as [_ Hw]. simpl in Ets.
    unfold sql_where, recall_conditions in Hw. rewrite !forallb_app in Hw.
    apply andb_true_iff in Hw. destruct Hw as [_ Hw].
    apply andb_true_iff in Hw. destruct Hw as [_ Hw].
    apply andb_true_iff in Hw. destruct Hw as [Hw _].
    assert (Hleb : String.leb (cutoff_of days) (e_timestamp r) = true).
    { destruct days as [|n|n]; [congruence| |]; simpl in Hw;
        now rewrite andb_true_r in Hw. }
    rewrite Hc, Ets in Hleb.
    destruct (same_day_before_cutoff date time' time) as [_ H].
    congruence.
  - intros r time' Hr Hf Ets. unfold consolidation_candidates.
    apply order_by_In, filter_In. split; [exact Hr|].
    rewrite Hf, Ets, Hc. simpl.
    apply (same_day_before_cutoff date time' time).
Qed.
End CutoffDay.

Lemma cutoff_day_counts_as_older_witness :
  In (mkEpisodic 4 "2025-02-08 10:00:00" "invoice overdue" "" (95 # 100) 0 0
                 (Some (Json.dumps ["billing"]))
                 "conversation|persona:Mo11y" false)
     (consolidation_candidates (isoformat "2025-02-08" "00:00:01.000000")
                               Billing.billing_store).
Proof.
  refine (proj2 (cutoff_day_counts_as_older Json.loads
                   (fun _ => isoformat "2025-02-08" "00:00:01.000000")
                   "2025-02-08" "00:00:01.000000" 10 0 [] 7 (Some "Mo11y")
                   Billing.billing_store _ _)
                (mkEpisodic 4 "2025-02-08 10:00:00" "invoice overdue" ""
                   (95 # 100) 0 0 (Some (Json.dumps ["billing"]))
                   "conversation|persona:Mo11y" false)
                "10:00:00" _ _ _).
  - discriminate.
  - reflexivity.
  - vm_compute. tauto.
  - reflexivity.
  - reflexivity.
Defined.

(** The memory of 2025-02-08 10:00:00 is not returned by a recall whose
    cut-off is one second past midnight of that day. *)
Example recall_misses_cutoff_day :
  map d_id
      (recall_episodic Json.loads
         (fun _ => isoformat "2025-02-08" "00:00:01.000000") 10 0 []
         (Some 7%Z) (Some "Mo11y") Billing.billing_store)
  = [].
Proof. vm_compute. reflexivity. Qed.

(** ** The keyless semantic read *)



(** ** The semantic look-ups of a retrieval *)

Lemma dict_set_keys {V : Type} (k : string) (v : V) (d : list (string * V))
      (k' : string) :
  In k' (map fst (dict_set k v d)) <-> k' = k \/ In k' (map fst d).
Proof.
  induction d as [|[k0 v0] d IH]; simpl.
  - intuition congruence.
  - destruct (String.eqb k0 k) eqn:E; simpl.
    + apply String.eqb_eq in E. subst. intuition congruence.
    + rewrite IH. intuition congruence.
Qed.

Lemma dict_set_NoDup {V : Type} (k : string) (v : V) (d : list (string * V)) :
  NoDup (map fst d) -> NoDup (map fst (dict_set k v d)).
Proof.
  induction d as [|[k0 v0] d IH]; simpl; intros H.
  - repeat constructor. intros [].
  - inversion H as [|x xs Hnotin Hnd]; subst.
    destruct (String.eqb k0 k) eqn:E; simpl.
    + apply String.eqb_eq in E. subst. now constructor.
    + constructor; [|now apply IH].
      rewrite dict_set_keys. intros [->|Hin]; [|contradiction].
      rewrite String.eqb_refl in E. discriminate.
Qed.

Lemma recall_semantic_keys now key (s : store) :
  map s_key (semantic_memories (snd (recall_semantic now key s)))
  = map s_key (semantic_memories s).
Proof.
  unfold recall_semantic. destruct (truthy_str key) as [k|]; [|reflexivity].
  destruct (find _ (semantic_memories s)); [|reflexivity].
  simpl. rewrite map_map. apply map_ext. intros r.
  destruct (String.eqb (s_key r) k); reflexivity.
Qed.

Lemma fact_found_keys (k : string) (s1 s2 : store) :
  map s_key (semantic_memories s1) = map s_key (semantic_memories s2) ->
  fact_found k s1 <-> fact_found k s2.
Proof. intros E. unfold fact_found. rewrite E. reflexivity. Qed.

Lemma classic_found (k : string) (s : store) :
  fact_found k s \/ ~ fact_found k s.
Proof.
  unfold fact_found. destruct k as [|c k].
  - destruct (map s_key (semantic_memories s));
      [right; intros H; now apply H | left; discriminate].
  - destruct (in_dec string_dec (String c k)
                     (map s_key (semantic_memories s))); auto.
Qed.

(** A keyed read returns the empty dictionary exactly when it finds
    nothing. *)
Lemma recall_semantic_empty_iff now (k : string) (s : store) :
  fst (recall_semantic now (Some k) s) = SemMap [] <-> ~ fact_found k s.
Proof.
  unfold recall_semantic, fact_found. destruct k as [|c k]; cbn [truthy_str].
  - simpl.
    pose proof (order_by_length semantic_before (semantic_memories s)) as L.
    destruct (order_by semantic_before (semantic_memories s)) as [|r rows];
      destruct (semantic_memories s) as [|r' rows']; simpl in *;
      try discriminate L; split; intros H; try reflexivity; try discriminate H.
    + intros H'. now apply H'.
    + exfalso. apply H. discriminate.
  - destruct (find _ (semantic_memories s)) as [row|] eqn:E; simpl.
    + split; [discriminate|]. intros H. exfalso. apply H.
      apply find_some in E. destruct E as [Hin Hk].
      apply String.eqb_eq in Hk. rewrite <- Hk. now apply in_map.
    + split; [|reflexivity]. intros _ Hin. apply in_map_iff in Hin.
      destruct Hin as (r & Hk & Hr).
      pose proof (find_none _ _ E r Hr) as Hn. simpl in Hn.
      rewrite Hk, String.eqb_refl in Hn. discriminate.
Qed.

Lemma semantic_step_keys now (found : list (string * semantic_result))
      (s : store) (topic : string) :
  let r := semantic_step now (found, s) topic in
  map s_key (semantic_memories (snd r)) = map s_key (semantic_memories s)
  /\ (forall k, In k (map fst (fst r)) <->
                In k (map fst found) \/ (k = topic /\ fact_found topic s))
  /\ (NoDup (map fst found) -> NoDup (map fst (fst r))).
Proof.
  unfold semantic_step.
  pose proof (recall_semantic_keys now (Some topic) s) as Hk.
  pose proof (recall_semantic_empty_iff now topic s) as He.
  destruct (recall_semantic now (Some topic) s) as [semantic s1].
  simpl in Hk, He.
  assert (Hdec : semantic = SemMap [] \/ semantic <> SemMap []).
  { destruct semantic as [k v c la ac|[|e es]];
      [right; discriminate | now left | right; discriminate]. }
  destruct Hdec as [E|E].
  - subst semantic. simpl. split; [exact Hk|]. split; [|auto].
    intros k. split; [now left|].
    intros [H|[_ H]]; [exact H|]. exfalso. now apply He.
  - assert (Hf : fact_found topic s).
    { destruct (classic_found topic s) as [H|H]; [exact H|].
      apply He in H. contradiction. }
    assert (R : (match semantic with
                 | SemMap [] => (found, s1)
                 | _ => (dict_set topic semantic found, s1)
                 end) = (dict_set topic semantic found, s1)).
    { destruct semantic as [k v c la ac|[|e es]]; try reflexivity.
      now destruct E. }
    rewrite R. simpl. split; [exact Hk|]. split.
    + intros k. rewrite dict_set_keys. tauto.
    + apply dict_set_NoDup.
Qed.

Lemma semantic_loop_keys now (l : list string)
      (found : list (string * semantic_result)) (s : store) :
  let r := fold_left (semantic_step now) l (found, s) in
  map s_key (semantic_memories (snd r)) = map s_key (semantic_memories s)
  /\ (forall k, In k (map fst (fst r)) <->
                In k (map fst found) \/ (In k l /\ fact_found k s))
  /\ (NoDup (map fst found) -> NoDup (map fst (fst r))).
Proof.
  revert found s. induction l as [|t l IH]; intros found s; cbn [fold_left].
  - simpl. split; [reflexivity|]. split; [|auto].
    intros k. tauto.
  - destruct (semantic_step_keys now found s t) as (K1 & I1 & N1).
    destruct (semantic_step now (found, s) t) as [found1 s1] eqn:Es.
    simpl in K1, I1, N1.
    destruct (IH found1 s1) as (K2 & I2 & N2).
    split; [congruence|]. split; [|auto].
    intros k. rewrite I2, I1, (fact_found_keys k s1 s K1).
    split.
    + intros [[H|[-> H]]|[H1 H2]]; auto.
      * right. split; [now left | exact H].
      * right. split; [now right | exact H2].
    + intros [H|[[->|H1] H2]]; auto.
Qed.

(** X23.  The semantic part of a retrieval holds one entry per topic, among
    the first three, under which a keyed read finds something, and no
    other entry; the look-ups leave the keys of the semantic table as they
    were. *)
Theorem retrieve_semantic_keys (now : string) (topics : list string)
    (s : store) :
  let result := retrieve_semantic now topics s in
  (forall k, In k (map fst (fst result)) <->
             In k (firstn 3 topics) /\ fact_found k s)
  /\ NoDup (map fst (fst result))
  /\ map s_key (semantic_memories (snd result))
     = map s_key (semantic_memories s).
Proof.
  intros result. subst result. unfold retrieve_semantic.
  destruct (semantic_loop_keys now (firstn 3 topics) [] s) as (K & I & N).
  split; [|split; [|exact K]].
  - intros k. rewrite I. simpl. tauto.
  - apply N. constructor.
Qed.

(** * The two-pass retrieval against its description *)

(** ** [LIKE] as computed and [LIKE] as a relation *)

Lemma like_matches_complete (p v : string) :
  like p v = true -> like_matches p v.
Proof.
  revert v. induction p as [|a p IH]; intros v H.
  - destruct v; [constructor | discriminate].
  - destruct (Ascii.eqb a "%") eqn:E.
    + apply Ascii.eqb_eq in E. subst a.
      induction v as [|c v IHv]; rewrite like_percent in H.
      * rewrite orb_false_r in H. apply like_run_empty, IH, H.
      * apply orb_true_iff in H. destruct H as [H|H].
        -- apply like_run_empty, IH, H.
        -- apply like_run_more, IHv, H.
    + destruct v as [|c v]; [simpl in H; rewrite E in H; discriminate|].
      rewrite like_char in H by exact E.
      apply andb_true_iff in H. destruct H as [Hc Hr].
      apply orb_true_iff in Hc. destruct Hc as [Hc|Hc];
        apply Ascii.eqb_eq in Hc.
      * subst a. apply like_any_char, IH, Hr.
      * apply like_same_char; [|exact Hc|apply IH, Hr].
        intros ->. discriminate E.
Qed.

Lemma like_matches_sound (p v : string) :
  like_matches p v -> like p v = true.
Proof.
  induction 1 as [|p v _ IH|p c v _ IH|p c v _ IH|a p c v Ha Hc _ IH].
  - reflexivity.
  - apply like_percent_here, IH.
  - rewrite like_percent, IH. apply orb_true_r.
  - rewrite like_char by reflexivity. rewrite IH. reflexivity.
  - rewrite like_char by (apply Ascii.eqb_neq, Ha).
    rewrite Hc, Ascii.eqb_refl, orb_true_r, IH. reflexivity.
Qed.

Lemma like_spec (p v : string) : like p v = true <-> like_matches p v.
Proof. split; [apply like_matches_complete | apply like_matches_sound]. Qed.

Lemma persona_like_spec (persona : string) (r : episodic_row) :
  persona_like persona r = true
  <-> like_matches ("%persona:" ++ persona ++ "%") (e_relationship_context r).
Proof. unfold persona_like. apply like_spec. Qed.

Lemma tags_like_spec (tags : list string) (r : episodic_row) :
  tags_like tags r = true
  <-> exists topic text : string,
        In topic tags /\ e_tags r = Some text
        /\ like_matches ("%" ++ topic ++ "%") text.
Proof.
  unfold tags_like. rewrite existsb_exists. split.
  - intros (t & Hin & H). destruct (e_tags r) as [text|]; [|discriminate].
    exists t, text. split; [exact Hin|]. split; [reflexivity|].
    apply like_spec, H.
  - intros (t & text & Hin & E & H). exists t. split; [exact Hin|].
    rewrite E. apply like_spec, H.
Qed.

(** ** The ranking order *)

Lemma leb_trans (a b c : string) :
  String.leb a b = true -> String.leb b c = true -> String.leb a c = true.
Proof.
  unfold String.leb. intros Hab Hbc.
  destruct (String.compare a b) eqn:Eab; [| |discriminate].
  - apply String.compare_eq_iff in Eab. subst b. exact Hbc.
  - destruct (String.compare b c) eqn:Ebc; [| |discriminate].
    + apply String.compare_eq_iff in Ebc. subst c. now rewrite Eab.
    + apply OrderedTypeEx.String_as_OT.cmp_lt in Eab, Ebc.
      pose proof (OrderedTypeEx.String_as_OT.lt_trans _ _ _ Eab Ebc) as H.
      apply OrderedTypeEx.String_as_OT.cmp_lt in H.
      unfold OrderedTypeEx.String_as_OT.cmp in H. now rewrite H.
Qed.

Lemma ranks_before_spec (a b : episodic_row) :
  episodic_before a b = true <-> ranks_before a b.
Proof.
  unfold episodic_before, ranks_before.
  destruct (e_importance_score a ?= e_importance_score b)%Q eqn:E.
  - apply Qeq_alt in E. split.
    + intros H. right. split; assumption.
    + intros [H|[_ H]]; [|exact H]. exfalso. rewrite E in H.
      exact (Qlt_irrefl _ H).
  - apply Qlt_alt in E. split; [discriminate|].
    intros [H|[H _]]; exfalso.
    + exact (Qlt_irrefl _ (Qlt_trans _ _ _ E H)).
    + rewrite H in E. exact (Qlt_irrefl _ E).
  - apply Qgt_alt in E. split; [intros _; now left | reflexivity].
Qed.

Lemma ranks_before_trans (a b c : episodic_row) :
  ranks_before a b -> ranks_before b c -> ranks_before a c.
Proof.
  unfold ranks_before. intros [H1|[E1 T1]] [H2|[E2 T2]].
  - left. now apply Qlt_trans with (e_importance_score b).
  - left. now rewrite <- E2.
  - left. now rewrite E1.
  - right. split; [now rewrite E1 | now apply leb_trans with (e_timestamp b)].
Qed.

Lemma order_by_ranked (l : list episodic_row) :
  StronglySorted ranks_before (order_by episodic_before l).
Proof.
  apply Sorted_StronglySorted; [exact ranks_before_trans|].
  rewrite <- (map_id (order_by episodic_before l)).
  apply Sorted_map with (R := fun a b => episodic_before a b = true).
  - intros a b H. apply ranks_before_spec, H.
  - apply order_by_sorted. exact episodic_before_total.
Qed.

(** ** A filtered, ordered, limited query is a pass *)

Lemma filter_partition {A : Type} (f : A -> bool) (l : list A) :
  Permutation l (filter f l ++ filter (fun x => negb (f x)) l).
Proof.
  induction l as [|x l IH]; simpl; [constructor|].
  destruct (f x); simpl.
  - now constructor.
  - now apply Permutation_cons_app.
Qed.

Lemma pass_of_filter (cap : nat) (f : episodic_row -> bool)
      (rows : list episodic_row) :
  pass_of cap (fun r => f r = true) rows
          (firstn cap (order_by episodic_before (filter f rows))).
Proof.
  exists (order_by episodic_before (filter f rows)),
         (filter (fun r => negb (f r)) rows).
  split; [|split; [|split; [|split]]].
  - eapply Permutation_trans; [apply (filter_partition f)|].
    apply Permutation_app_tail. symmetry. apply order_by_perm.
  - apply Forall_forall. intros r Hr.
    apply order_by_In, filter_In in Hr. tauto.
  - apply Forall_forall. intros r Hr. apply filter_In in Hr.
    destruct Hr as [_ Hr]. apply negb_true_iff in Hr. congruence.
  - apply order_by_ranked.
  - reflexivity.
Qed.

Lemma pass_of_equiv (cap : nat) (P Q : episodic_row -> Prop)
      (rows selected : list episodic_row) :
  (forall r, In r rows -> (P r <-> Q r)) ->
  pass_of cap P rows selected -> pass_of cap Q rows selected.
Proof.
  intros H (ranked & others & Hp & Ha & Ho & Hs & E).
  exists ranked, others.
  split; [exact Hp|]. split; [|split; [|split; assumption]].
  - rewrite Forall_forall in *. intros r Hr. apply H; [|now apply Ha].
    apply (Permutation_in r (Permutation_sym Hp)), in_or_app. now left.
  - rewrite Forall_forall in *. intros r Hr HQ. apply (Ho r Hr).
    apply H; [|exact HQ].
    apply (Permutation_in r (Permutation_sym Hp)), in_or_app. now right.
Qed.

(** ** Timestamps against cut-off dates, off the cut-off's own day *)

(** Two texts that differ within their first [n] characters compare as
    those first characters do. *)
Lemma compare_by_prefix (n : nat) (a b : string) :
  substring 0 n a <> substring 0 n b ->
  String.compare a b = String.compare (substring 0 n a) (substring 0 n b).
Proof.
  revert a b. induction n as [|n IH]; intros a b H.
  - exfalso. apply H. destruct a, b; reflexivity.
  - destruct a as [|c a], b as [|d b]; simpl in *; try reflexivity.
    destruct (Ascii.compare c d) eqn:E; try reflexivity.
    apply IH. intros Heq. apply H.
    apply Ascii.compare_eq_iff in E. subst d. now rewrite Heq.
Qed.

Lemma after_day_spec (cutoff : string) (r : episodic_row) :
  day_of (e_timestamp r) <> day_of cutoff ->
  (String.leb cutoff (e_timestamp r) = true <-> after_day cutoff r).
Proof.
  unfold after_day, day_of, String.leb, String.ltb. intros H.
  rewrite (compare_by_prefix 10 cutoff (e_timestamp r))
    by (intros E; apply H; symmetry; exact E).
  destruct (String.compare (substring 0 10 cutoff)
                           (substring 0 10 (e_timestamp r))) eqn:E.
  - apply String.compare_eq_iff in E. exfalso. apply H. now symmetry.
  - tauto.
  - split; discriminate.
Qed.

Lemma string_length_append (a b : string) :
  String.length (a ++ b) = (String.length a + String.length b)%nat.
Proof. induction a as [|c a IH]; simpl; [reflexivity | now rewrite IH]. Qed.

(** ** The passes of [retrieve_memories] *)

Section TwoPass.
Variable json_loads : string -> list string.
Variable cutoff_of : Z -> string.

Lemma pass_A_conditions (persona : string) (topic : string)
      (topics : list string) (r : episodic_row) :
  day_of (e_timestamp r) <> day_of (cutoff_of 30%Z) ->
  (sql_where (recall_conditions cutoff_of (3 # 10)
                (firstn 3 (topic :: topics)) (Some 30%Z) (Some persona)) r
   = true
   <-> pass_A_admits cutoff_of persona (topic :: topics) r).
Proof.
  intros Hday. unfold pass_A_admits, persona_admits, topic_admits.
  rewrite <- (after_day_spec (cutoff_of 30%Z) r Hday).
  rewrite <- tags_like_spec, <- persona_like_spec, <- Qle_bool_iff.
  change (firstn 3 (topic :: topics)) with (topic :: firstn 2 topics).
  unfold recall_conditions, sql_where.
  destruct persona as [|c p]; cbn [truthy_str app forallb];
    rewrite !andb_true_iff.
  - intuition.
  - intuition discriminate.
Qed.

Lemma pass_B_conditions (persona : string) (r : episodic_row) :
  day_of (e_timestamp r) <> day_of (cutoff_of 7%Z) ->
  (sql_where (recall_conditions cutoff_of (5 # 10) [] (Some 7%Z)
                                (Some persona)) r
   = true
   <-> pass_B_admits cutoff_of persona r).
Proof.
  intros Hday. unfold pass_B_admits, persona_admits.
  rewrite <- (after_day_spec (cutoff_of 7%Z) r Hday).
  rewrite <- persona_like_spec, <- Qle_bool_iff.
  unfold recall_conditions, sql_where.
  destruct persona as [|c p]; cbn [truthy_str app forallb];
    rewrite !andb_true_iff.
  - intuition.
  - intuition discriminate.
Qed.

(** The topic pass of the code is pass A: skipped without topics, where
    the tag filter admits nothing. *)
Lemma topic_memories_pass_A (persona_name : string) (topics : list string)
      (s : store) :
  off_cutoff_days cutoff_of (episodic_memories s) ->
  exists pass_a : list episodic_row,
    pass_of 3 (pass_A_admits cutoff_of persona_name topics)
            (episodic_memories s) pass_a
    /\ topic_memories_of json_loads cutoff_of persona_name topics s
       = map (row_to_dict json_loads) pass_a.
Proof.
  intros Hoff. destruct topics as [|t ts].
  - exists []. split; [|reflexivity].
    exists [], (episodic_memories s).
    split; [reflexivity|]. split; [constructor|].
    split; [|split; [constructor | reflexivity]].
    apply Forall_forall. intros r _ (_ & _ & _ & (topic & _ & [] & _)).
  - unfold topic_memories_of, recall_episodic, recall_rows.
    rewrite sql_limit_firstn by lia. change (Z.to_nat 3) with 3%nat.
    eexists. split; [|reflexivity].
    eapply pass_of_equiv; [|apply pass_of_filter].
    intros r Hr. apply pass_A_conditions.
    unfold off_cutoff_days in Hoff. rewrite Forall_forall in Hoff.
    apply (Hoff r Hr).
Qed.

Lemma recent_memories_pass_B (persona_name : string) (s : store) :
  off_cutoff_days cutoff_of (episodic_memories s) ->
  exists pass_b : list episodic_row,
    pass_of 2 (pass_B_admits cutoff_of persona_name)
            (episodic_memories s) pass_b
    /\ recent_memories_of json_loads cutoff_of persona_name s
       = map (row_to_dict json_loads) pass_b.
Proof.
  intros Hoff.
  unfold recent_memories_of, recall_episodic, recall_rows.
  rewrite sql_limit_firstn by lia. change (Z.to_nat 2) with 2%nat.
  eexists. split; [|reflexivity].
  eapply pass_of_equiv; [|apply pass_of_filter].
  intros r Hr. apply pass_B_conditions.
  unfold off_cutoff_days in Hoff. rewrite Forall_forall in Hoff.
  apply (Hoff r Hr).
Qed.

(** C2.  On a store in which no memory is stamped on the day of either
    cut-off, the episodic part of a retrieval is the merge of two passes.
    Pass A holds, of the memories that pass the persona filter, have
    importance at least 0.3, are stamped on a later day than the 30 day
    cut-off and whose stored tag text matches [%<topic>%] for one of the
    first three topics, the first 3 in ranking order (importance
    descending, then timestamp descending).  Pass B holds, of the memories
    that pass the persona filter, have importance at least 0.5 and are
    stamped on a later day than the 7 day cut-off, the first 2 in ranking
    order.  The persona filter is the match of [%persona:<name>%] on the
    relationship context, and no filter when the name is empty.  The
    result is pass A followed by pass B, duplicates by id dropped with the
    first occurrence kept, cut to 5; a retrieval run again after the
    semantic look-ups of the first returns the same list. *)
Theorem retrieve_episodic_two_pass_merge (persona_name : string)
    (topics : list string) (now : string) (s : store) :
  off_cutoff_days cutoff_of (episodic_memories s) ->
  exists pass_a pass_b : list episodic_row,
    pass_of 3 (pass_A_admits cutoff_of persona_name topics)
            (episodic_memories s) pass_a
    /\ pass_of 2 (pass_B_admits cutoff_of persona_name)
               (episodic_memories s) pass_b
    /\ retrieve_episodic json_loads cutoff_of persona_name topics s
       = spec_merge (map (row_to_dict json_loads) pass_a)
                    (map (row_to_dict json_loads) pass_b)
    /\ (List.length (retrieve_episodic json_loads cutoff_of persona_name
                                       topics s) <= 5)%nat
    /\ retrieve_episodic json_loads cutoff_of persona_name topics
                         (snd (retrieve_semantic now topics s))
       = retrieve_episodic json_loads cutoff_of persona_name topics s.
Proof.
  intros Hoff.
  destruct (topic_memories_pass_A persona_name topics s Hoff)
    as (pass_a & Ha & Ea).
  destruct (recent_memories_pass_B persona_name s Hoff)
    as (pass_b & Hb & Eb).
  exists pass_a, pass_b.
  split; [exact Ha|]. split; [exact Hb|]. split; [|split].
  - unfold retrieve_episodic.
    rewrite combine_memories_merge, Ea, Eb. reflexivity.
  - unfold retrieve_episodic, combine_memories. apply firstn_le_length.
  - apply retrieve_episodic_ext, retrieve_semantic_episodic.
Qed.
End TwoPass.

Lemma retrieve_episodic_two_pass_merge_witness :
  exists pass_a pass_b : list episodic_row,
    pass_of 3 (pass_A_admits Billing.clock "Mo11y" ["billing"])
            (episodic_memories Billing.billing_store) pass_a
    /\ pass_of 2 (pass_B_admits Billing.clock "Mo11y")
               (episodic_memories Billing.billing_store) pass_b
    /\ retrieve_episodic Json.loads Billing.clock "Mo11y" ["billing"]
                         Billing.billing_store
       = spec_merge (map (row_to_dict Json.loads) pass_a)
                    (map (row_to_dict Json.loads) pass_b)
    /\ (List.length (retrieve_episodic Json.loads Billing.clock "Mo11y"
                                       ["billing"] Billing.billing_store)
        <= 5)%nat
    /\ retrieve_episodic Json.loads Billing.clock "Mo11y" ["billing"]
         (snd (retrieve_semantic "2025-02-10 12:00:00" ["billing"]
                                 Billing.billing_store))
       = retrieve_episodic Json.loads Billing.clock "Mo11y" ["billing"]
                           Billing.billing_store.
Proof.
  apply (retrieve_episodic_two_pass_merge Json.loads Billing.clock "Mo11y"
           ["billing"] "2025-02-10 12:00:00" Billing.billing_store).
  unfold off_cutoff_days. vm_compute.
  repeat (constructor; [split; discriminate|]). constructor.
Defined.

(** C2, the claim as stated fails.  Asked for the topic "bill", the
    retrieval returns a memory whose only tag is "billing" and whose
    importance 0.4 is below the 0.5 of pass B: no pass of the claim holds
    it.  A memory of the persona, of importance 0.9, stamped on the day of
    the 7 day cut-off three hours after it, is not returned.  With an
    empty persona name, a memory without persona in its relationship
    context is returned. *)
Lemma retrieve_episodic_claimed_filters_counterexample :
  (exists d : episodic_dict,
      retrieve_episodic Json.loads Billing.clock "Mo11y" ["bill"]
                        billing_tag_store = [d]
      /\ ~ claimed_tag_match ["bill"] d
      /\ (d_importance_score d < 5 # 10)%Q)
  /\ (exists r : episodic_row,
         episodic_memories cutoff_day_store = [r]
         /\ claimed_persona_match "Mo11y" (row_to_dict Json.loads r)
         /\ (5 # 10 <= e_importance_score r)%Q
         /\ claimed_not_before (Billing.clock 7) (e_timestamp r)
         /\ retrieve_episodic Json.loads Billing.clock "Mo11y" []
                              cutoff_day_store = [])
  /\ (exists d : episodic_dict,
         retrieve_episodic Json.loads Billing.clock "" [] no_persona_store
         = [d]
         /\ ~ claimed_persona_match "" d).
Proof.
  split; [|split].
  - eexists. split; [vm_compute; reflexivity|]. split.
    + intros (t & [<-|[]] & [H|[]]). discriminate H.
    + reflexivity.
  - eexists. split; [vm_compute; reflexivity|].
    split; [exists "conversation|", ""; reflexivity|].
    split; [discriminate|].
    split; [right; split; reflexivity | reflexivity].
  - eexists. split; [vm_compute; reflexivity|].
    intros (before & after & H). simpl in H.
    apply (f_equal String.length) in H.
    rewrite !string_length_append in H. simpl in H. lia.
Qed.
